(** * populate-marketplace.js: filename classifier, metadata normaliser,
      pricing and batch orchestrator

    A shallow embedding of [src/populate-marketplace.js] and the properties
    its specification states about it.

    Conventions of the embedding.
    - A JavaScript string is a [string]: the sequence of its code units.  The
      embedding covers strings over ASCII (code units below 128), on which
      [toLowerCase], [toUpperCase], the class [\s] and the [/i] flag are the
      functions written below; larger code units are left alone by them.
    - A JavaScript number is a binary64 [float]; [null] is [None].  A
      numeral is read with correct rounding, whatever its length.
    - Line numbers are those of [src/populate-marketplace.js].
    - A [Set] is the list of its elements in insertion order; an object
      literal used as a table is the list of its entries in source order,
      which is the order [Object.keys] enumerates them in. *)

From Stdlib Require Import Bool Arith ZArith List Ascii String Floats Lia.
Import ListNotations.

Set Warnings "-inexact-float".

Open Scope bool_scope.
Open Scope string_scope.

(** ** Strings *)

Definition code (c : ascii) : nat := nat_of_ascii c.

Definition is_lower (c : ascii) : bool := (97 <=? code c)%nat && (code c <=? 122)%nat.
Definition is_upper (c : ascii) : bool := (65 <=? code c)%nat && (code c <=? 90)%nat.

Definition lower_char (c : ascii) : ascii :=
  if is_upper c then ascii_of_nat (code c + 32) else c.
Definition upper_char (c : ascii) : ascii :=
  if is_lower c then ascii_of_nat (code c - 32) else c.

Fixpoint map_string (f : ascii -> ascii) (s : string) : string :=
  match s with
  | EmptyString => EmptyString
  | String c s' => String (f c) (map_string f s')
  end.

(** [String.prototype.toLowerCase] and [toUpperCase]. *)
Definition toLowerCase (s : string) : string := map_string lower_char s.
Definition toUpperCase (s : string) : string := map_string upper_char s.

(** The class [\s]: tab, line feed, vertical tab, form feed, carriage
    return and space. *)
Definition is_space (c : ascii) : bool :=
  existsb (Nat.eqb (code c)) [9; 10; 11; 12; 13; 32].

(** [s.includes(sub)]. *)
Fixpoint includes (s sub : string) : bool :=
  prefix sub s ||
  match s with
  | EmptyString => false
  | String _ s' => includes s' sub
  end.

(** [s.replace(/\.(mp4|mov|avi|webm)$/i, '')]: the pattern is anchored at
    the end of the string, so it removes one of the four suffixes, compared
    without regard to case, when the string ends with it. *)
Definition video_suffixes : list string := [".mp4"; ".mov"; ".avi"; ".webm"].

Definition ends_with_ci (s suffix : string) : bool :=
  let n := length s in
  let k := length suffix in
  (k <=? n)%nat && (toLowerCase (substring (n - k) k s) =? suffix).

Definition removeExtension (filename : string) : string :=
  match find (ends_with_ci filename) video_suffixes with
  | Some suffix => substring 0 (length filename - length suffix) filename
  | None => filename
  end.

(** [s.replace(/[-_]/g, ' ')]. *)
Definition replaceSeparators (s : string) : string :=
  map_string (fun c => if (c =? "-")%char || (c =? "_")%char then " "%char else c) s.

(** [s.replace(/([a-z])([A-Z])/g, '$1 $2')]: a match consumes a lower-case
    letter followed by an upper-case one, and the next match cannot start on
    the consumed upper-case letter, so a space goes between every such
    adjacent pair. *)
Fixpoint splitCamelCase (s : string) : string :=
  match s with
  | EmptyString => EmptyString
  | String c1 rest =>
      match rest with
      | String c2 _ =>
          if is_lower c1 && is_upper c2
          then String c1 (String " " (splitCamelCase rest))
          else String c1 (splitCamelCase rest)
      | EmptyString => String c1 EmptyString
      end
  end.

(** [s.split(/\s+/)]: the pieces between maximal runs of white space; a run
    at either end of the string leaves an empty piece there, and the empty
    string gives one empty piece.  [cur] is the piece being read and [insep]
    tells that the last character read was white space. *)
Fixpoint split_from (s cur : string) (insep : bool) : list string :=
  match s with
  | EmptyString => [cur]
  | String c s' =>
      if is_space c
      then if insep then split_from s' "" true
           else cur :: split_from s' "" true
      else split_from s' (cur ++ String c "") false
  end.

Definition split_ws (s : string) : list string := split_from s "" false.

(** ** Insertion-ordered sets and tables *)

Definition set_add (x : string) (s : list string) : list string :=
  if existsb (String.eqb x) s then s else (s ++ [x])%list.

(** [xs.forEach(x => s.add(x))]. *)
Definition set_add_all (xs s : list string) : list string :=
  fold_left (fun acc x => set_add x acc) xs s.

Definition table : Type := list (string * list string).

Definition Object_keys (t : table) : list string := map fst t.

(** [t[key]], [None] for [undefined]. *)
Fixpoint get (t : table) (key : string) : option (list string) :=
  match t with
  | [] => None
  | (k, v) :: t' => if k =? key then Some v else get t' key
  end.

(** ** The filename classifier: [parseFilename] *)

Definition categoryMap : table :=
  [ ("nature", ["nature"; "landscape"; "outdoor"; "scenery"]);
    ("city", ["urban"; "cityscape"; "architecture"; "downtown"]);
    ("ocean", ["ocean"; "sea"; "water"; "beach"; "marine"]);
    ("mountain", ["mountain"; "hiking"; "nature"; "landscape"]);
    ("sunset", ["sunset"; "golden hour"; "evening"; "sky"]);
    ("sunrise", ["sunrise"; "morning"; "dawn"; "sky"]);
    ("food", ["food"; "culinary"; "cooking"; "restaurant"]);
    ("people", ["people"; "lifestyle"; "social"; "human"]);
    ("business", ["business"; "corporate"; "professional"; "office"]);
    ("technology", ["technology"; "tech"; "digital"; "modern"]);
    ("travel", ["travel"; "vacation"; "tourism"; "destination"]);
    ("fitness", ["fitness"; "health"; "exercise"; "workout"]);
    ("abstract", ["abstract"; "artistic"; "creative"; "design"]);
    ("aerial", ["aerial"; "drone"; "birds eye"; "top view"]);
    ("slow motion", ["slow motion"; "slo mo"; "cinematic"]);
    ("time lapse", ["time lapse"; "timelapse"; "fast motion"]);
    ("night", ["night"; "evening"; "dark"; "nighttime"]);
    ("day", ["day"; "daytime"; "bright"; "sunny"]);
    ("rain", ["rain"; "weather"; "wet"; "storm"]);
    ("snow", ["snow"; "winter"; "cold"; "white"]);
    ("fire", ["fire"; "flame"; "heat"; "burning"]);
    ("water", ["water"; "liquid"; "fluid"; "aqua"]);
    ("sky", ["sky"; "clouds"; "atmosphere"; "aerial"]) ].

Definition useCaseMap : table :=
  [ ("nature", ["Content Creation"; "Marketing"; "Background"; "Social Media"]);
    ("city", ["Marketing"; "Real Estate"; "Travel"; "Background"]);
    ("business", ["Corporate Videos"; "Marketing"; "Presentations"]);
    ("food", ["Restaurant Marketing"; "Content Creation"; "Social Media"]);
    ("technology", ["Tech Reviews"; "Marketing"; "Presentations"]);
    ("abstract", ["Background"; "Transitions"; "Creative Projects"]);
    ("aerial", ["Real Estate"; "Travel"; "Marketing"; "Documentaries"]) ].

Definition baselineTags : list string := ["stock footage"; "video clip"].

Definition genericUseCases : list string :=
  ["Content Creation"; "Marketing"; "Background"; "Social Media"].

Definition fallbackTitle : string := "Stock Video Footage".

(** The template of line 114, with [t] in the place of the interpolation. *)
Definition descriptionTemplate (t : string) : string :=
  "High-quality " ++ t ++
  " stock footage perfect for your creative projects. This video can be used for content creation, marketing campaigns, social media posts, and more.".

Record ParsedDescriptor : Type := {
  title : string;
  tags : list string;
  useCases : list string;
  description : string
}.

(** Lines 38 to 44. *)
Definition cleanName (filename : string) : string :=
  toLowerCase (splitCamelCase (replaceSeparators (removeExtension filename))).

(** Line 47. *)
Definition words (filename : string) : list string :=
  filter (fun w => (2 <? length w)%nat) (split_ws (cleanName filename)).

(** [w.charAt(0).toUpperCase() + w.slice(1)]. *)
Definition capitalize (w : string) : string :=
  match w with
  | EmptyString => EmptyString
  | String c rest => String (upper_char c) rest
  end.

(** Lines 88 to 90: the title as built from the words, before the fallback
    of line 117. *)
Definition rawTitle (filename : string) : string :=
  concat " " (map capitalize (words filename)).

(** The pair of sets [tags], [useCases] that the two nested [forEach] of
    lines 96 to 106 update. *)
Definition matches (word category : string) : bool :=
  includes word category || includes category word.

Definition visitCategory (word : string)
    (acc : list string * list string) (category : string)
    : list string * list string :=
  if matches word category then
    let tags' :=
      match get categoryMap category with
      | Some ts => set_add_all ts (fst acc)
      | None => fst acc
      end in
    let useCases' :=
      match get useCaseMap category with
      | Some ucs => set_add_all ucs (snd acc)
      | None => snd acc
      end in
    (tags', useCases')
  else acc.

Definition visitWord (acc : list string * list string) (word : string)
    : list string * list string :=
  fold_left (visitCategory word) (Object_keys categoryMap) acc.

Definition collect (ws : list string) : list string * list string :=
  fold_left visitWord ws (baselineTags, []).

Definition parseFilename (filename : string) : ParsedDescriptor :=
  let title0 := rawTitle filename in
  let '(tagSet, useCaseSet) := collect (words filename) in
  let useCaseSet :=
    if (List.length useCaseSet =? 0)%nat then set_add_all genericUseCases useCaseSet
    else useCaseSet in
  let description0 := descriptionTemplate (toLowerCase title0) in
  {| title := if title0 =? "" then fallbackTitle else title0;
     tags := firstn 10 tagSet;
     useCases := firstn 6 useCaseSet;
     description := description0 |}.

(** ** Numbers *)

(** The Number value of a non-zero integer: round to nearest, ties to even. *)
Definition Z_to_number (z : Z) : float :=
  SF2Prim (binary_normalize prec emax z 0 false).

(** The Number value of [num / den] for positive [num] and [den], negated
    when [neg].  The quotient is taken with at least 56 bits and one more
    bit that records a non-zero remainder, which rounds as the exact
    quotient does. *)
Definition ratio_to_number (neg : bool) (num den : Z) : float :=
  let s := Z.max 0 (56 + Z.log2 den - Z.log2 num) in
  let n := (num * 2 ^ s)%Z in
  let q := (n / den)%Z in
  let sticky := if (n mod den =? 0)%Z then 0%Z else 1%Z in
  let m := (2 * q + sticky)%Z in
  SF2Prim (binary_normalize prec emax (if neg then (- m)%Z else m) (- s - 1) neg).

(** The Number value of [m * 10 ^ e] for [m >= 0], negated when [neg]. *)
Definition decimal_to_number (neg : bool) (m e : Z) : float :=
  if (m =? 0)%Z then (if neg then neg_zero else zero)
  else ratio_to_number neg (m * 10 ^ Z.max e 0) (10 ^ Z.max (- e) 0).

(** A value used as a condition: [0], [-0] and [NaN] are falsy. *)
Definition truthy (x : float) : bool := negb (is_zero x || is_nan x).

(** A nullable number as a condition. *)
Definition present (v : option float) : bool :=
  match v with
  | Some x => truthy x
  | None => false
  end.

(** [ToNumber] of a nullable number: [null] is [+0]. *)
Definition ToNumber (v : option float) : float :=
  match v with
  | Some x => x
  | None => zero
  end.

(** [Math.floor]. *)
Definition Math_floor (x : float) : float :=
  match Prim2SF x with
  | S754_finite s m e =>
      if (0 <=? e)%Z then x
      else
        let q := Z.shiftr (Zpos m) (- e) in
        let exact := (Z.shiftl q (- e) =? Zpos m)%Z in
        if s then Z_to_number (- (if exact then q else q + 1))
        else if (q =? 0)%Z then zero else Z_to_number q
  | _ => x
  end.

(** [x % y]: the remainder of the truncating division, with the sign of
    [x]. *)
Definition Number_remainder (x y : float) : float :=
  match Prim2SF x, Prim2SF y with
  | S754_nan, _ | _, S754_nan => nan
  | S754_infinity _, _ => nan
  | _, S754_zero _ => nan
  | _, S754_infinity _ => x
  | S754_zero _, _ => x
  | S754_finite sx mx ex, S754_finite _ my ey =>
      let e0 := Z.min ex ey in
      let r := ((Zpos mx * 2 ^ (ex - e0)) mod (Zpos my * 2 ^ (ey - e0)))%Z in
      SF2Prim (binary_normalize prec emax (if sx then (- r)%Z else r) e0 sx)
  end.

(** *** [parseInt] and [parseFloat] *)

(** Leading white space is skipped by both. *)
Fixpoint trimStart (s : string) : string :=
  match s with
  | String c s' => if is_space c then trimStart s' else s
  | EmptyString => EmptyString
  end.

(** The value of a digit in a radix up to 36. *)
Definition digit_value (c : ascii) : option Z :=
  let n := code c in
  if (48 <=? n)%nat && (n <=? 57)%nat then Some (Z.of_nat (n - 48))
  else if is_lower c then Some (Z.of_nat (n - 97 + 10))
  else if is_upper c then Some (Z.of_nat (n - 65 + 10))
  else None.

Definition digit_in (radix : Z) (c : ascii) : option Z :=
  match digit_value c with
  | Some d => if (d <? radix)%Z then Some d else None
  | None => None
  end.

(** The longest prefix of [s] made of digits of the radix: its value, how
    many digits it has, and what follows it. *)
Fixpoint read_digits (radix : Z) (s : string) (acc : Z) (count : nat)
    : Z * nat * string :=
  match s with
  | String c s' =>
      match digit_in radix c with
      | Some d => read_digits radix s' (acc * radix + d) (S count)
      | None => (acc, count, s)
      end
  | EmptyString => (acc, count, s)
  end.

(** An optional sign in front of [s]: whether it is a minus, and the rest. *)
Definition read_sign (s : string) : bool * string :=
  match s with
  | String c s' =>
      if (c =? "-")%char then (true, s')
      else if (c =? "+")%char then (false, s')
      else (false, s)
  | EmptyString => (false, s)
  end.

(** [parseInt(s)], no radix given: radix 16 after [0x] or [0X], radix 10
    otherwise; [NaN] when no digit follows the sign and the prefix. *)
Definition parseInt (input : string) : float :=
  let '(neg, s) := read_sign (trimStart input) in
  let '(radix, s) :=
    match s with
    | String c0 (String c1 s') =>
        if (c0 =? "0")%char && ((c1 =? "x")%char || (c1 =? "X")%char)
        then (16%Z, s') else (10%Z, s)
    | _ => (10%Z, s)
    end in
  let '(n, count, _) := read_digits radix s 0 0 in
  if (count =? 0)%nat then nan
  else if (n =? 0)%Z then (if neg then neg_zero else zero)
  else Z_to_number (if neg then (- n)%Z else n).

(** The exponent part of a decimal literal at the head of [s], when there is
    a complete one: [e] or [E], an optional sign and at least one digit. *)
Definition read_exponent (s : string) : Z :=
  match s with
  | String c s' =>
      if (c =? "e")%char || (c =? "E")%char then
        let '(neg, s'') := read_sign s' in
        let '(n, count, _) := read_digits 10 s'' 0 0 in
        if (count =? 0)%nat then 0%Z else if neg then (- n)%Z else n
      else 0%Z
  | EmptyString => 0%Z
  end.

(** [parseFloat(s)]: the value of the longest prefix, after the white space,
    that is a decimal literal; [NaN] when there is none. *)
Definition parseFloat (input : string) : float :=
  let '(neg, s) := read_sign (trimStart input) in
  if prefix "Infinity" s then (if neg then neg_infinity else infinity)
  else
    let '(int_part, int_count, s1) := read_digits 10 s 0 0 in
    let '(mantissa, frac_count, s2) :=
      match s1 with
      | String c s1' =>
          if (c =? ".")%char then
            let '(m, k, rest) := read_digits 10 s1' int_part 0 in
            if (int_count =? 0)%nat && (k =? 0)%nat then (int_part, 0%nat, s1)
            else (m, k, rest)
          else (int_part, 0%nat, s1)
      | EmptyString => (int_part, 0%nat, s1)
      end in
    if (int_count + frac_count =? 0)%nat then nan
    else decimal_to_number neg mantissa (read_exponent s2 - Z.of_nat frac_count).

(** ** Strings that interpolate numbers

    A template literal is kept as its pieces, a number standing for the
    string that [String(x)] or [x.toFixed(d)] gives. *)

Inductive piece : Type :=
| Lit (s : string)
| Num (x : float)
| Fixed (x : float) (digits : nat).

Definition text : Type := list piece.

Definition lit (s : string) : text := [Lit s].

(** ** The metadata normaliser *)

(** [getAspectRatio(width, height)], lines 130 to 142. *)
Definition getAspectRatio (width height : option float) : text :=
  match width, height with
  | Some w, Some h =>
      if negb (truthy w) || negb (truthy h) then lit "Unknown"
      else
        let ratio := (w / h)%float in
        if (abs (ratio - 16 / 9) <? 0.1)%float then lit "16:9 (Landscape)"
        else if (abs (ratio - 9 / 16) <? 0.1)%float then lit "9:16 (Portrait)"
        else if (abs (ratio - 1) <? 0.1)%float then lit "1:1 (Square)"
        else if (abs (ratio - 4 / 3) <? 0.1)%float then lit "4:3 (Standard)"
        else if (abs (ratio - 21 / 9) <? 0.1)%float then lit "21:9 (Ultrawide)"
        else [Num w; Lit "x"; Num h]
  | _, _ => lit "Unknown"
  end.

(** [formatDuration(seconds)], lines 149 to 159. *)
Definition formatDuration (seconds : option float) : text :=
  match seconds with
  | Some sec =>
      if negb (truthy sec) then lit "Unknown"
      else
        let mins := Math_floor (sec / 60)%float in
        let secs := Math_floor (Number_remainder sec 60) in
        if (0 <? mins)%float then [Num mins; Lit "m "; Num secs; Lit "s"]
        else [Num secs; Lit "s"]
  | None => lit "Unknown"
  end.

(** ** The pricing step, lines 287 to 289 *)

Definition price (duration width : option float) : float :=
  let p := 4.99%float in
  let p :=
    match duration with
    | Some d => if truthy d && (30 <? d)%float then 7.99%float else p
    | None => p
    end in
  let p :=
    match width with
    | Some w => if truthy w && (3840 <=? w)%float then 9.99%float else p
    | None => p
    end in
  p.

(** ** What the storage provider returns *)

(** The value of a custom attribute: a string, or a native boolean. *)
Inductive attr : Type :=
| AStr (s : string)
| ABool (b : bool).

(** An attribute read off the bag, [None] for [undefined], as a condition. *)
Definition attr_truthy (a : option attr) : bool :=
  match a with
  | Some (AStr s) => negb (s =? "")
  | Some (ABool b) => b
  | None => false
  end.

(** [ToString], which [parseInt] and [parseFloat] apply to their argument. *)
Definition attr_to_string (a : attr) : string :=
  match a with
  | AStr s => s
  | ABool true => "true"
  | ABool false => "false"
  end.

Definition bag : Type := list (string * attr).

Fixpoint lookup (b : bag) (key : string) : option attr :=
  match b with
  | [] => None
  | (k, v) :: b' => if k =? key then Some v else lookup b' key
  end.

(** The object that [file.getMetadata()] resolves to; [size] is the number
    that [metadata.size] stands for in a division. *)
Record StorageMetadata : Type := {
  sm_size : float;
  sm_contentType : string;
  sm_timeCreated : string;
  sm_metadata : option bag
}.

(** The object that [getVideoMetadata] returns. *)
Record Metadata : Type := {
  md_url : string;
  md_size : float;
  md_contentType : string;
  md_timeCreated : string;
  md_width : option float;
  md_height : option float;
  md_duration : option float;
  md_hasAudio : bool
}.

(** [a ? parseInt(a) : null] and [a ? parseFloat(a) : null]. *)
Definition parsedInt (a : option attr) : option float :=
  match a with
  | Some v => if attr_truthy a then Some (parseInt (attr_to_string v)) else None
  | None => None
  end.

Definition parsedFloat (a : option attr) : option float :=
  match a with
  | Some v => if attr_truthy a then Some (parseFloat (attr_to_string v)) else None
  | None => None
  end.

(** [a === 'true' || a === true]. *)
Definition isTrue (a : option attr) : bool :=
  match a with
  | Some (AStr s) => s =? "true"
  | Some (ABool b) => b
  | None => false
  end.

(** Lines 178 to 189: the result of [getVideoMetadata] once the provider has
    answered with [metadata] and [url]. *)
Definition extractMetadata (metadata : StorageMetadata) (url : string) : Metadata :=
  let customMetadata :=
    match sm_metadata metadata with
    | Some b => b
    | None => []
    end in
  {| md_url := url;
     md_size := sm_size metadata;
     md_contentType := sm_contentType metadata;
     md_timeCreated := sm_timeCreated metadata;
     md_width := parsedInt (lookup customMetadata "width");
     md_height := parsedInt (lookup customMetadata "height");
     md_duration := parsedFloat (lookup customMetadata "duration");
     md_hasAudio := isTrue (lookup customMetadata "hasAudio") |}.

(** ** Listings *)

(** The object assembled at lines 292 to 306. *)
Record VideoData : Type := {
  vd_fileName : string;
  vd_url : string;
  vd_title : string;
  vd_description : string;
  vd_tags : list string;
  vd_useCases : list string;
  vd_hasAudio : bool;
  vd_aspectRatio : text;
  vd_duration : text;
  vd_durationSeconds : option float;
  vd_resolution : text;
  vd_fileSize : text;
  vd_price : float
}.

(** [admin.firestore.FieldValue.serverTimestamp()]. *)
Inductive FieldValue : Type := serverTimestamp.

(** The document written at lines 204 to 229. *)
Record Listing : Type := {
  ls_id : string;
  ls_sellerId : string;
  ls_sellerName : string;
  ls_title : string;
  ls_description : string;
  ls_videoUrl : string;
  ls_generationId : string;
  ls_prompt : string;
  ls_price : float;
  ls_tags : list string;
  ls_hasAudio : bool;
  ls_useCases : list string;
  ls_thumbnailUrl : string;
  ls_status : string;
  ls_createdAt : FieldValue;
  ls_updatedAt : FieldValue;
  ls_sold : nat;
  ls_aspectRatio : text;
  ls_duration : text;
  ls_durationSeconds : option float;
  ls_resolution : text;
  ls_fileSize : text;
  ls_fileName : string
}.

Definition makeListing (id : string) (videoData : VideoData) : Listing :=
  {| ls_id := id;
     ls_sellerId := "admin";
     ls_sellerName := "Reelzila";
     ls_title := vd_title videoData;
     ls_description := vd_description videoData;
     ls_videoUrl := vd_url videoData;
     ls_generationId := "imported";
     ls_prompt := toLowerCase (vd_title videoData);
     ls_price := if truthy (vd_price videoData) then vd_price videoData else 4.99%float;
     ls_tags := vd_tags videoData;
     ls_hasAudio := vd_hasAudio videoData;
     ls_useCases := vd_useCases videoData;
     ls_thumbnailUrl := vd_url videoData;
     ls_status := "published";
     ls_createdAt := serverTimestamp;
     ls_updatedAt := serverTimestamp;
     ls_sold := 0;
     ls_aspectRatio := vd_aspectRatio videoData;
     ls_duration := vd_duration videoData;
     ls_durationSeconds := vd_durationSeconds videoData;
     ls_resolution := vd_resolution videoData;
     ls_fileSize := vd_fileSize videoData;
     ls_fileName := vd_fileName videoData |}.

(** Lines 284 to 306. *)
Definition makeVideoData (fileName : string) (metadata : Metadata) : VideoData :=
  let parsed := parseFilename fileName in
  {| vd_fileName := fileName;
     vd_url := md_url metadata;
     vd_title := title parsed;
     vd_description := description parsed;
     vd_tags := tags parsed;
     vd_useCases := useCases parsed;
     vd_hasAudio := md_hasAudio metadata;
     vd_aspectRatio := getAspectRatio (md_width metadata) (md_height metadata);
     vd_duration := formatDuration (md_duration metadata);
     vd_durationSeconds := md_duration metadata;
     vd_resolution :=
       match md_width metadata, md_height metadata with
       | Some w, Some h =>
           if truthy w && truthy h then [Num w; Lit "x"; Num h] else lit "Unknown"
       | _, _ => lit "Unknown"
       end;
     vd_fileSize := [Fixed (md_size metadata / (1024 * 1024))%float 2; Lit " MB"];
     vd_price := price (md_duration metadata) (md_width metadata) |}.

(** ** The run as a trace of events

    The storage bucket, the document store, the console and the timer are
    outside the program.  A run is followed through the events it causes,
    in order; the three calls the loop makes to the functions of this file
    are events too. *)

(** What an awaited call of a collaborator does: it resolves to a value or
    it throws an error with a message. *)
Inductive result (A : Type) : Type :=
| Ok (a : A)
| Throws (message : string).
Arguments Ok {A} a.
Arguments Throws {A} message.

(** The lines written with [console.log] and [console.error], each with the
    values interpolated in it. *)
Inductive logline : Type :=
| LogStart                                           (* line 245 *)
| LogFound (n : nat)                                 (* line 257 *)
| LogNoFiles                                         (* line 260 *)
| LogProcessing (k n : nat) (fileName : string)      (* line 272 *)
| LogSkipping                                        (* line 278 *)
| LogTitle (t : string)                              (* line 309 *)
| LogTags (ts : string)                              (* line 310 *)
| LogAspectRatio (t : text)                          (* line 311 *)
| LogDuration (t : text)                             (* line 312 *)
| LogResolution (t : text)                           (* line 313 *)
| LogAudio (yes : bool)                              (* line 314 *)
| LogPrice (p : float)                               (* line 315 *)
| LogRule                                            (* lines 330, 335 *)
| LogComplete                                        (* line 331 *)
| LogSuccess (successCount : nat)                    (* line 332 *)
| LogErrors (errorCount : nat)                       (* line 333 *)
| LogTotal (n : nat)                                 (* line 334 *)
| LogCreated (t fileName : string)                   (* line 232 *)
| ErrMetadata (filePath message : string)            (* line 191 *)
| ErrListing (fileName message : string)             (* line 236 *)
| ErrFatal (message : string).                       (* line 338 *)

Inductive callee : Type :=
| fn_getVideoMetadata
| fn_parseFilename
| fn_createMarketplaceListing.

Inductive event : Type :=
| Log (l : logline)
| Call (f : callee) (argument : string)
| Storage_getFiles                                   (* bucket.getFiles() *)
| Storage_getMetadata (filePath : string)            (* file.getMetadata() *)
| Storage_getSignedUrl (filePath : string)           (* file.getSignedUrl(..) *)
| Firestore_doc                                      (* collection(..).doc() *)
| Firestore_set (l : Listing)                        (* listingRef.set(listing) *)
| Wait (ms : nat)                                    (* await of setTimeout *)
| Exit (exitCode : nat).                             (* process.exit *)

(** How [populateMarketplace] ends: it returns, or it exits the process. *)
Inductive outcome : Type :=
| Returned
| Exited (exitCode : nat).

(** The summary block of lines 330 to 335. *)
Definition summary (successCount errorCount total : nat) : list event :=
  map Log [LogRule; LogComplete; LogSuccess successCount;
           LogErrors errorCount; LogTotal total; LogRule].

Definition video_extensions : list string := [".mp4"; ".mov"; ".avi"; ".webm"].

(** The collaborators: the state of the world outside the program, what
    each call answers and how it changes that state; and [path.extname] and
    [path.basename] of the platform. *)
Record Collaborators (World : Type) : Type := {
  bucket_getFiles : World -> result (list string) * World;
  file_getMetadata : string -> World -> result StorageMetadata * World;
  file_getSignedUrl : string -> World -> result string * World;
  collection_doc : World -> result string * World;
  listingRef_set : Listing -> World -> result unit * World;
  path_extname : string -> string;
  path_basename : string -> string
}.
Arguments bucket_getFiles {World} c.
Arguments file_getMetadata {World} c.
Arguments file_getSignedUrl {World} c.
Arguments collection_doc {World} c.
Arguments listingRef_set {World} c.
Arguments path_extname {World} c.
Arguments path_basename {World} c.

Section Orchestrator.

Context {World : Type} (env : Collaborators World).

Record state : Type := { world : World; trace : list event }.

(** A computation: it reads and changes the state and gives a value. *)
Definition M (A : Type) : Type := state -> A * state.

Definition ret {A : Type} (a : A) : M A := fun st => (a, st).

Definition bind {A B : Type} (m : M A) (k : A -> M B) : M B :=
  fun st => let '(a, st') := m st in k a st'.

Local Notation "x <- m ;; k" := (bind m (fun x => k))
  (at level 61, m at next level, right associativity).
Local Notation "m ;; k" := (bind m (fun _ => k))
  (at level 61, right associativity).

Definition emit (e : event) : M unit :=
  fun st => (tt, {| world := world st; trace := (trace st ++ [e])%list |}).

Definition log (l : logline) : M unit := emit (Log l).

(** An awaited call of a collaborator: the event, then its answer. *)
Definition await {A : Type} (e : event) (f : World -> result A * World)
    : M (result A) :=
  fun st =>
    let '(r, w) := f (world st) in
    (r, {| world := w; trace := (trace st ++ [e])%list |}).

(** [getVideoMetadata(filePath)], lines 166 to 194. *)
Definition getVideoMetadata (filePath : string) : M (option Metadata) :=
  r <- await (Storage_getMetadata filePath) (file_getMetadata env filePath) ;;
  match r with
  | Throws message => log (ErrMetadata filePath message) ;; ret None
  | Ok metadata =>
      u <- await (Storage_getSignedUrl filePath) (file_getSignedUrl env filePath) ;;
      match u with
      | Throws message => log (ErrMetadata filePath message) ;; ret None
      | Ok url => ret (Some (extractMetadata metadata url))
      end
  end.

(** [createMarketplaceListing(videoData)], lines 200 to 239. *)
Definition createMarketplaceListing (videoData : VideoData)
    : M (option Listing) :=
  r <- await Firestore_doc (collection_doc env) ;;
  match r with
  | Throws message =>
      log (ErrListing (vd_fileName videoData) message) ;; ret None
  | Ok id =>
      let listing := makeListing id videoData in
      w <- await (Firestore_set listing) (listingRef_set env listing) ;;
      match w with
      | Throws message =>
          log (ErrListing (vd_fileName videoData) message) ;; ret None
      | Ok _ =>
          log (LogCreated (vd_title videoData) (vd_fileName videoData)) ;;
          ret (Some listing)
      end
  end.

(** The filter of lines 252 to 255. *)
Definition isVideoFile (name : string) : bool :=
  existsb (String.eqb (toLowerCase (path_extname env name))) video_extensions.

(** One turn of the loop of lines 268 to 328 on [file], the [k]-th of
    [total], from the counters [successCount] and [errorCount] to their
    new values.  The [continue] of line 280 ends the turn at once. *)
Definition iteration (total k : nat) (file : string)
    (counters : nat * nat) : M (nat * nat) :=
  let '(successCount, errorCount) := counters in
  let fileName := path_basename env file in
  log (LogProcessing (k + 1) total fileName) ;;
  emit (Call fn_getVideoMetadata file) ;;
  metadata <- getVideoMetadata file ;;
  match metadata with
  | None =>
      log LogSkipping ;;
      ret (successCount, errorCount + 1)
  | Some metadata =>
      emit (Call fn_parseFilename fileName) ;;
      let videoData := makeVideoData fileName metadata in
      log (LogTitle (vd_title videoData)) ;;
      log (LogTags (concat ", " (vd_tags videoData))) ;;
      log (LogAspectRatio (vd_aspectRatio videoData)) ;;
      log (LogDuration (vd_duration videoData)) ;;
      log (LogResolution (vd_resolution videoData)) ;;
      log (LogAudio (vd_hasAudio videoData)) ;;
      log (LogPrice (vd_price videoData)) ;;
      emit (Call fn_createMarketplaceListing (vd_fileName videoData)) ;;
      listing <- createMarketplaceListing videoData ;;
      let counters' :=
        match listing with
        | Some _ => (successCount + 1, errorCount)
        | None => (successCount, errorCount + 1)
        end in
      emit (Wait 500) ;;
      ret counters'
  end.

(** The loop from its [k]-th turn on, [videoFiles] being the files still
    to visit. *)
Fixpoint loop (total k : nat) (videoFiles : list string)
    (counters : nat * nat) : M (nat * nat) :=
  match videoFiles with
  | [] => ret counters
  | file :: rest =>
      counters' <- iteration total k file counters ;;
      loop total (k + 1) rest counters'
  end.

(** [populateMarketplace()], lines 244 to 341. *)
Definition populateMarketplace : M outcome :=
  log LogStart ;;
  r <- await Storage_getFiles (bucket_getFiles env) ;;
  match r with
  | Throws message =>
      log (ErrFatal message) ;; emit (Exit 1) ;; ret (Exited 1)
  | Ok files =>
      let videoFiles := filter isVideoFile files in
      log (LogFound (List.length videoFiles)) ;;
      if (List.length videoFiles =? 0)%nat then
        log LogNoFiles ;; ret Returned
      else
        counters <- loop (List.length videoFiles) 0 videoFiles (0, 0) ;;
        let '(successCount, errorCount) := counters in
        log LogRule ;;
        log LogComplete ;;
        log (LogSuccess successCount) ;;
        log (LogErrors errorCount) ;;
        log (LogTotal (List.length videoFiles)) ;;
        log LogRule ;;
        ret Returned
  end.

End Orchestrator.

Arguments state World : clear implicits.
Arguments M World A : clear implicits.

(** ** The aspect-ratio rule in the words of the specification

    The label is "Unknown" when a dimension is missing or zero, a dimension
    being missing when it is [null] or not a number.  Otherwise the ratio of
    width to height is compared with the five canonical ratios, in this
    order, with an absolute tolerance of 0.1; the first one within tolerance
    gives the label, and when there is none the label is the width, an "x"
    and the height. *)

Definition canonicalRatios : list (float * string) :=
  [ ((16 / 9)%float, "16:9 (Landscape)");
    ((9 / 16)%float, "9:16 (Portrait)");
    (1%float, "1:1 (Square)");
    ((4 / 3)%float, "4:3 (Standard)");
    ((21 / 9)%float, "21:9 (Ultrawide)") ].

Definition within_tolerance (ratio canonical : float) : bool :=
  (abs (ratio - canonical) <? 0.1)%float.

Definition missing_or_zero (v : option float) : bool := negb (present v).

Definition aspectRatio_spec (width height : option float) : text :=
  if missing_or_zero width || missing_or_zero height then lit "Unknown"
  else
    let ratio := (ToNumber width / ToNumber height)%float in
    match find (fun c => within_tolerance ratio (fst c)) canonicalRatios with
    | Some c => lit (snd c)
    | None => [Num (ToNumber width); Lit "x"; Num (ToNumber height)]
    end.

(** ** Reading a trace *)

(** The events by which the classifier or the writer is at work. *)
Definition classifies_or_writes (e : event) : bool :=
  match e with
  | Call fn_parseFilename _ | Call fn_createMarketplaceListing _
  | Firestore_doc | Firestore_set _ => true
  | _ => false
  end.

Definition is_write (e : event) : bool :=
  match e with
  | Firestore_set _ => true
  | _ => false
  end.

(** The fetches and the pauses of a trace, in order. *)
Definition fetches_and_pauses (tr : list event) : list event :=
  filter (fun e => match e with
                   | Call fn_getVideoMetadata _ | Wait _ => true
                   | _ => false
                   end) tr.

(** The trace reports a summary with these three counts. *)
Definition reports_summary (tr : list event) (successCount errorCount total : nat)
    : Prop :=
  In (Log (LogSuccess successCount)) tr /\
  In (Log (LogErrors errorCount)) tr /\
  In (Log (LogTotal total)) tr.

(** ** A world to run the examples in

    The document store is the list of the listings written so far; the
    bucket holds [files], of which those in [unreadable] have no metadata to
    give and those named in [attributes] carry custom attributes; nothing
    else fails.  Paths are those of POSIX. *)

(** The last portion of a path, trailing slashes apart. *)
Fixpoint last_portion (p cur last : string) : string :=
  match p with
  | EmptyString => if cur =? "" then last else cur
  | String c p' =>
      if (c =? "/")%char
      then last_portion p' "" (if cur =? "" then last else cur)
      else last_portion p' (cur ++ String c "") last
  end.

Definition posix_basename (p : string) : string := last_portion p "" "".

(** Where the last dot of [s] is, [i] being the index of its head. *)
Fixpoint last_dot (s : string) (i : nat) (found : option nat) : option nat :=
  match s with
  | EmptyString => found
  | String c s' => last_dot s' (S i) (if (c =? ".")%char then Some i else found)
  end.

(** From the last dot of the last portion to its end, unless that dot comes
    first or the portion is two dots. *)
Definition posix_extname (p : string) : string :=
  let b := posix_basename p in
  match last_dot b 0 None with
  | Some (S i) => if b =? ".." then "" else substring (S i) (length b - S i) b
  | _ => ""
  end.

Definition store : Type := list Listing.

(** What the provider answers for a file with the custom attributes
    [custom]. *)
Definition metadataWith (custom : option bag) : StorageMetadata :=
  {| sm_size := 1048576%float;
     sm_contentType := "video/mp4";
     sm_timeCreated := "2025-01-01T00:00:00.000Z";
     sm_metadata := custom |}.

Fixpoint attributes_of (attributes : list (string * bag)) (filePath : string)
    : option bag :=
  match attributes with
  | [] => None
  | (p, b) :: rest => if p =? filePath then Some b else attributes_of rest filePath
  end.

Definition ex_getFiles (files : list string) (w : store)
    : result (list string) * store :=
  (Ok files, w).

Definition ex_getMetadata (unreadable : list string)
    (attributes : list (string * bag)) (filePath : string) (w : store)
    : result StorageMetadata * store :=
  if existsb (String.eqb filePath) unreadable
  then (Throws "No such object", w)
  else (Ok (metadataWith (attributes_of attributes filePath)), w).

Definition ex_getSignedUrl (filePath : string) (w : store)
    : result string * store :=
  (Ok ("https://storage.example/" ++ filePath), w).

Definition ex_doc (w : store) : result string * store :=
  (Ok (concat "" (repeat "x" (S (List.length w)))), w).

Definition ex_set (l : Listing) (w : store) : result unit * store :=
  (Ok tt, (w ++ [l])%list).

Definition example (files unreadable : list string)
    (attributes : list (string * bag)) : Collaborators store :=
  {| bucket_getFiles := ex_getFiles files;
     file_getMetadata := ex_getMetadata unreadable attributes;
     file_getSignedUrl := ex_getSignedUrl;
     collection_doc := ex_doc;
     listingRef_set := ex_set;
     path_extname := posix_extname;
     path_basename := posix_basename |}.

Definition initial : state store := {| world := []; trace := [] |}.

(** The run over the bucket [files], with [unreadable] among them. *)
Definition run (files unreadable : list string)
    (attributes : list (string * bag)) : outcome * state store :=
  populateMarketplace (example files unreadable attributes) initial.

(** ** Predicates for the further properties *)

(** Every character of [s] satisfies [p]. *)
Fixpoint string_forall (p : ascii -> bool) (s : string) : bool :=
  match s with
  | EmptyString => true
  | String c s' => p c && string_forall p s'
  end.

(** What a character of a word can be: no white space, no upper-case
    letter, neither of the two separators. *)
Definition word_char (c : ascii) : bool :=
  negb (is_space c) && negb (is_upper c) &&
  negb ((c =? "-")%char || (c =? "_")%char).

(** Lines 108 to 111 and the cut of line 119, on the use cases collected. *)
Definition finalUseCases (useCaseSet : list string) : list string :=
  firstn 6 (if (List.length useCaseSet =? 0)%nat
            then set_add_all genericUseCases useCaseSet
            else useCaseSet).

(** A tag, or a use case, that a word brings through a category. *)
Definition brought_by (t : table) (ws : list string) (x : string) : Prop :=
  exists w category xs,
    In w ws /\ matches w category = true /\
    get t category = Some xs /\ In x xs.

(** Equality of texts, piece by piece; numbers are compared as values of
    the type, so that [NaN] equals itself and the two zeros differ. *)
Definition piece_eqb (a b : piece) : bool :=
  match a, b with
  | Lit s, Lit s' => s =? s'
  | Num x, Num x' => PrimFloat.Leibniz.eqb x x'
  | Fixed x d, Fixed x' d' => PrimFloat.Leibniz.eqb x x' && (d =? d')%nat
  | _, _ => false
  end.

Fixpoint text_eqb (a b : text) : bool :=
  match a, b with
  | [], [] => true
  | p :: a', q :: b' => piece_eqb p q && text_eqb a' b'
  | _, _ => false
  end.

(** The label of a whole number [n] of seconds, as minutes and seconds. *)
Definition wholeDurationLabel (n : nat) : text :=
  if (n <? 60)%nat then [Num (Z_to_number (Z.of_nat n)); Lit "s"]
  else [Num (Z_to_number (Z.of_nat (n / 60))); Lit "m ";
        Num (Z_to_number (Z.of_nat (n mod 60))); Lit "s"].

Definition wholeDurationCheck (n : nat) : bool :=
  text_eqb (formatDuration (Some (Z_to_number (Z.of_nat n)))) (wholeDurationLabel n).

(** Kinds of events, and how many of a kind a trace has. *)
Definition is_fetch_call (e : event) : bool :=
  match e with Call fn_getVideoMetadata _ => true | _ => false end.

Definition is_pause (e : event) : bool :=
  match e with Wait _ => true | _ => false end.

Definition is_skip (e : event) : bool :=
  match e with Log LogSkipping => true | _ => false end.

Definition is_created (e : event) : bool :=
  match e with Log (LogCreated _ _) => true | _ => false end.

Definition is_listing_error (e : event) : bool :=
  match e with Log (ErrListing _ _) => true | _ => false end.

Definition count (p : event -> bool) (tr : list event) : nat :=
  List.length (filter p tr).

(** The listing [l] is the one made for one of [files]: from the descriptor
    of its base name and from some metadata, under some identifier. *)
Definition listing_of {World : Type} (env : Collaborators World)
    (files : list string) (l : Listing) : Prop :=
  exists file id metadata,
    In file files /\
    l = makeListing id (makeVideoData (path_basename env file) metadata).

(** Every write of the trace is of a listing made for one of [files]. *)
Definition writes_listings_of {World : Type} (env : Collaborators World)
    (files : list string) (tr : list event) : Prop :=
  forall l, In (Firestore_set l) tr -> listing_of env files l.

(** ** The script around [populateMarketplace], lines 344 to 352

    What the script adds to the events of the run: the line of the [then]
    handler and the exit of the process.  The [catch] handler never runs,
    since [populateMarketplace] catches what is thrown in it. *)
Inductive script_event : Type :=
| OfRun (e : event)
| ScriptCompleted                                    (* line 346 *)
| ScriptExit (exitCode : nat).                       (* line 347 *)

(** The exit code of the process and the events up to it. *)
Definition script {World : Type} (env : Collaborators World)
    (st : state World) : nat * list script_event :=
  let '(o, st') := populateMarketplace env st in
  match o with
  | Returned => (0, (map OfRun (trace st') ++ [ScriptCompleted; ScriptExit 0])%list)
  | Exited exitCode => (exitCode, map OfRun (trace st'))
  end.

(** Two more worlds: one whose files cannot be given a signed URL, one
    whose document store refuses every write. *)
Definition ex_getSignedUrl_denied (filePath : string) (w : store)
    : result string * store :=
  (Throws "SigningError", w).

Definition ex_set_denied (l : Listing) (w : store) : result unit * store :=
  (Throws "PERMISSION_DENIED", w).

Definition unsigned (files : list string) : Collaborators store :=
  {| bucket_getFiles := ex_getFiles files;
     file_getMetadata := ex_getMetadata [] [];
     file_getSignedUrl := ex_getSignedUrl_denied;
     collection_doc := ex_doc;
     listingRef_set := ex_set;
     path_extname := posix_extname;
     path_basename := posix_basename |}.

Definition readonly (files : list string) : Collaborators store :=
  {| bucket_getFiles := ex_getFiles files;
     file_getMetadata := ex_getMetadata [] [];
     file_getSignedUrl := ex_getSignedUrl;
     collection_doc := ex_doc;
     listingRef_set := ex_set_denied;
     path_extname := posix_extname;
     path_basename := posix_basename |}.

(** A bucket that cannot be listed. *)
Definition unlistable : Collaborators store :=
  {| bucket_getFiles := fun w => (Throws "Forbidden", w);
     file_getMetadata := ex_getMetadata [] [];
     file_getSignedUrl := ex_getSignedUrl;
     collection_doc := ex_doc;
     listingRef_set := ex_set;
     path_extname := posix_extname;
     path_basename := posix_basename |}.

(** Decimal numerals: the string of the digits [ds], most significant
    first, and the integer it denotes. *)
Definition digit_char (d : nat) : ascii := ascii_of_nat (48 + d).

Definition numeral (ds : list nat) : string :=
  fold_right (fun d s => String (digit_char d) s) "" ds.

Definition numeral_value (ds : list nat) : Z :=
  fold_left (fun acc d => (acc * 10 + Z.of_nat d)%Z) ds 0%Z.

(** What may follow a numeral without being read with it: nothing, or a
    character that is neither a digit nor the [x] of a hexadecimal prefix. *)
Definition ends_numeral (rest : string) : bool :=
  match rest with
  | EmptyString => true
  | String c _ =>
      match digit_in 10 c with
      | Some _ => false
      | None => negb ((c =? "x")%char || (c =? "X")%char)
      end
  end.

(** * Properties of the classifier *)

Section SetFacts.

(** Adding to a set in insertion order keeps what was there, in place. *)
Lemma set_add_extends (x : string) (s : list string) :
  exists l, set_add x s = (s ++ l)%list.
Proof.
  unfold set_add. destruct (existsb (String.eqb x) s).
  - exists []. now rewrite app_nil_r.
  - now exists [x].
Qed.

Lemma set_add_all_extends (xs s : list string) :
  exists l, set_add_all xs s = (s ++ l)%list.
Proof.
  unfold set_add_all. revert s.
  induction xs as [|x xs IH]; intros s; cbn [fold_left].
  - exists []. now rewrite app_nil_r.
  - destruct (set_add_extends x s) as [l1 ->].
    destruct (IH (s ++ l1)%list) as [l2 ->].
    exists (l1 ++ l2)%list. now rewrite app_assoc.
Qed.

Lemma visitCategory_extends word acc category :
  exists l, fst (visitCategory word acc category) = (fst acc ++ l)%list.
Proof.
  unfold visitCategory. destruct (matches word category); cbn [fst].
  - destruct (get categoryMap category) as [ts|].
    + apply set_add_all_extends.
    + exists []. now rewrite app_nil_r.
  - exists []. now rewrite app_nil_r.
Qed.

(** A fold whose every step extends the first component extends it. *)
Lemma fold_left_extends {A B C : Type}
    (f : list A * B -> C -> list A * B) :
  (forall acc x, exists l, fst (f acc x) = (fst acc ++ l)%list) ->
  forall xs acc, exists l, fst (fold_left f xs acc) = (fst acc ++ l)%list.
Proof.
  intros Hf xs. induction xs as [|x xs IH]; intros acc; cbn [fold_left].
  - exists []. now rewrite app_nil_r.
  - destruct (IH (f acc x)) as [l2 H2].
    destruct (Hf acc x) as [l1 H1].
    exists (l1 ++ l2)%list. now rewrite H2, H1, app_assoc.
Qed.

Lemma visitWord_extends acc word :
  exists l, fst (visitWord acc word) = (fst acc ++ l)%list.
Proof.
  apply (fold_left_extends (visitCategory word)).
  intros acc' category. apply visitCategory_extends.
Qed.

Lemma fold_visitWord_extends ws acc :
  exists l, fst (fold_left visitWord ws acc) = (fst acc ++ l)%list.
Proof. apply (fold_left_extends visitWord), visitWord_extends. Qed.

(** The tag set always starts with the two baseline tags. *)
Lemma collect_baseline ws :
  exists l, fst (collect ws) = "stock footage" :: "video clip" :: l.
Proof.
  unfold collect. destruct (fold_visitWord_extends ws (baselineTags, [])) as [l ->].
  now exists l.
Qed.

End SetFacts.

(** The fields of the descriptor, one by one. *)
Lemma parseFilename_title filename :
  title (parseFilename filename) =
  if rawTitle filename =? "" then fallbackTitle else rawTitle filename.
Proof. unfold parseFilename. now destruct (collect (words filename)). Qed.

Lemma parseFilename_description filename :
  description (parseFilename filename) =
  descriptionTemplate (toLowerCase (rawTitle filename)).
Proof. unfold parseFilename. now destruct (collect (words filename)). Qed.

Lemma parseFilename_tags filename :
  tags (parseFilename filename) = firstn 10 (fst (collect (words filename))).
Proof. unfold parseFilename. now destruct (collect (words filename)). Qed.

Lemma parseFilename_useCases filename :
  List.length (useCases (parseFilename filename)) <= 6.
Proof.
  unfold parseFilename. destruct (collect (words filename)); cbn [useCases].
  apply firstn_le_length.
Qed.

(** Every word kept by the filter has more than two characters, so a
    filename with a word has a title that is not empty. *)
Lemma words_long filename w :
  In w (words filename) -> 2 < length w.
Proof.
  unfold words. intros H. apply filter_In in H. destruct H as [_ H].
  now apply Nat.ltb_lt in H.
Qed.

Lemma rawTitle_nonempty filename :
  words filename <> [] -> rawTitle filename <> "".
Proof.
  unfold rawTitle. intros H.
  destruct (words filename) as [|w ws] eqn:E; [congruence|].
  assert (Hw : 2 < length w) by (apply (words_long filename); rewrite E; now left).
  destruct w as [|c r]; [simpl in Hw; lia|].
  simpl. destruct (map capitalize ws); discriminate.
Qed.

Lemma rawTitle_empty filename :
  words filename = [] -> rawTitle filename = "".
Proof. unfold rawTitle. now intros ->. Qed.

(** When a word survives, the description does interpolate the lower-case
    form of the returned title. *)
Lemma description_of_title filename :
  words filename <> [] ->
  description (parseFilename filename) =
  descriptionTemplate (toLowerCase (title (parseFilename filename))).
Proof.
  intros H. rewrite parseFilename_description, parseFilename_title.
  destruct (rawTitle filename =? "") eqn:E; [|reflexivity].
  apply String.eqb_eq in E. now apply rawTitle_nonempty in H.
Qed.

(** When none does, the title is the generic one and the description
    interpolates the empty string. *)
Lemma description_without_words filename :
  words filename = [] ->
  title (parseFilename filename) = "Stock Video Footage" /\
  description (parseFilename filename) = descriptionTemplate "".
Proof.
  intros H. rewrite parseFilename_description, parseFilename_title.
  now rewrite (rawTitle_empty _ H).
Qed.

(** C1 (as stated, refuted): the claim lists "ocean" or "sea" among the tags
    of "sunset-beach-walk.mp4"; the tag list has neither. *)
Lemma sunset_beach_walk_has_no_ocean_tag :
  let d := parseFilename "sunset-beach-walk.mp4" in
  ~ (title d = "Sunset Beach Walk" /\
     In "sunset" (tags d) /\ In "golden hour" (tags d) /\
     (In "ocean" (tags d) \/ In "sea" (tags d)) /\
     In "stock footage" (tags d) /\ In "video clip" (tags d) /\
     In "Content Creation" (useCases d)).
Proof.
  vm_compute. intros (_ & _ & _ & [H | H] & _);
    repeat (destruct H as [H | H]; [discriminate H|]); exact H.
Qed.

(** C1 (amended): [parseFilename "sunset-beach-walk.mp4"] has the title
    "Sunset Beach Walk", exactly the tags "stock footage", "video clip",
    "sunset", "golden hour", "evening", "sky", and the four generic use
    cases, "Content Creation" among them.  Its words are "sunset", "beach",
    "walk"; tokens are matched against the category keys, not against the
    tags of a category, and "beach" matches no key. *)
Theorem sunset_beach_walk :
  let d := parseFilename "sunset-beach-walk.mp4" in
  words "sunset-beach-walk.mp4" = ["sunset"; "beach"; "walk"] /\
  title d = "Sunset Beach Walk" /\
  tags d = ["stock footage"; "video clip"; "sunset"; "golden hour"; "evening"; "sky"] /\
  useCases d = ["Content Creation"; "Marketing"; "Background"; "Social Media"] /\
  In "Content Creation" (useCases d) /\
  filter (matches "beach") (Object_keys categoryMap) = [] /\
  filter (matches "walk") (Object_keys categoryMap) = [] /\
  filter (matches "sunset") (Object_keys categoryMap) = ["sunset"].
Proof.
  vm_compute. repeat split; now left.
Qed.

(** C5 (the code at the failing input): for "a.mp4" no word survives; the
    returned title is "Stock Video Footage", yet the description is the
    template around the empty string, not around "stock video footage". *)
Theorem description_ignores_fallback_title :
  let d := parseFilename "a.mp4" in
  words "a.mp4" = [] /\
  title d = "Stock Video Footage" /\
  description d = descriptionTemplate "" /\
  description d <> descriptionTemplate (toLowerCase (title d)).
Proof.
  vm_compute. repeat split. discriminate.
Qed.

(** C9: a filename with at least one token longer than two characters gets
    a title that is not empty and a tag list, cut to ten, that starts with
    the two baseline tags "stock footage" and "video clip"; the use-case
    list is cut to six.  No assumption on the separators is needed. *)
Theorem baseline_tags_survive (filename : string) :
  words filename <> [] ->
  let d := parseFilename filename in
  title d <> "" /\
  In "stock footage" (tags d) /\ In "video clip" (tags d) /\
  (exists l, tags d = "stock footage" :: "video clip" :: l) /\
  List.length (tags d) <= 10 /\ List.length (useCases d) <= 6.
Proof.
  intros H d. subst d.
  assert (Ht : exists l, tags (parseFilename filename)
                         = "stock footage" :: "video clip" :: l).
  { rewrite parseFilename_tags.
    destruct (collect_baseline (words filename)) as [l ->].
    now exists (firstn 8 l). }
  split; [|split; [|split; [|split; [|split]]]].
  - rewrite parseFilename_title.
    destruct (rawTitle filename =? "") eqn:E; [discriminate|].
    now apply rawTitle_nonempty.
  - destruct Ht as [l ->]. now left.
  - destruct Ht as [l ->]. right. now left.
  - exact Ht.
  - rewrite parseFilename_tags. apply firstn_le_length.
  - apply parseFilename_useCases.
Qed.

Lemma baseline_tags_survive_witness :
  words "myCoolVideo_final-CITY.MOV" <> [] /\
  title (parseFilename "myCoolVideo_final-CITY.MOV") <> "".
Proof.
  assert (H : words "myCoolVideo_final-CITY.MOV" <> []) by (vm_compute; discriminate).
  split; [exact H|].
  exact (proj1 (baseline_tags_survive "myCoolVideo_final-CITY.MOV" H)).
Defined.

(** * Properties of the numbers *)

Section FloatOrder.

(** Comparing the other way round gives the opposite answer. *)
Lemma SFcompare_antisym (a b : spec_float) :
  SFcompare b a = option_map CompOpp (SFcompare a b).
Proof.
  destruct a as [sa|sa| |sa ma ea], b as [sb|sb| |sb mb eb];
    try reflexivity; try (destruct sa; reflexivity);
    try (destruct sb; reflexivity);
    try (destruct sa, sb; reflexivity).
  cbn. destruct sa, sb; try reflexivity;
    rewrite (Z.compare_antisym ea eb);
    destruct (ea ?= eb)%Z; cbn; try reflexivity;
    rewrite (Pos.compare_cont_antisym ma mb Eq); cbn;
    now rewrite ?CompOpp_involutive.
Qed.

Lemma leb_not_gtb (x y : float) :
  (x <=? y)%float = true -> (y <? x)%float = false.
Proof.
  rewrite leb_spec, ltb_spec. unfold SFleb, SFltb.
  rewrite (SFcompare_antisym (Prim2SF x) (Prim2SF y)).
  destruct (SFcompare (Prim2SF x) (Prim2SF y)) as [[| |]|]; cbn; congruence.
Qed.

Lemma ltb_not_geb (x y : float) :
  (x <? y)%float = true -> (y <=? x)%float = false.
Proof.
  rewrite leb_spec, ltb_spec. unfold SFleb, SFltb.
  rewrite (SFcompare_antisym (Prim2SF x) (Prim2SF y)).
  destruct (SFcompare (Prim2SF x) (Prim2SF y)) as [[| |]|]; cbn; congruence.
Qed.

Lemma SFeqb_finite_refl s m e :
  SFeqb (S754_finite s m e) (S754_finite s m e) = true.
Proof.
  unfold SFeqb, SFcompare.
  destruct s; now rewrite Z.compare_refl, Pos.compare_cont_refl.
Qed.

(** A number compared with success against a finite positive bound is
    neither zero nor [NaN] when it is above the bound. *)
Lemma above_positive_truthy (bound x : float) :
  (exists m e, Prim2SF bound = S754_finite false m e) ->
  (bound <? x)%float = true \/ (bound <=? x)%float = true ->
  truthy x = true.
Proof.
  intros (m & e & Hb) H.
  unfold truthy, is_zero, is_nan.
  rewrite !eqb_spec. rewrite ltb_spec, leb_spec, Hb in H.
  change (Prim2SF zero) with (S754_zero false).
  destruct (Prim2SF x) as [s|s| |s mx ex].
  - destruct H as [H | H]; discriminate H.
  - destruct s; reflexivity.
  - destruct H as [H | H]; discriminate H.
  - rewrite SFeqb_finite_refl. destruct s; reflexivity.
Qed.

End FloatOrder.

(** The pricing step in closed form. *)
Lemma price_eq (duration width : option float) :
  price duration width =
  if present width && (3840 <=? ToNumber width)%float then 9.99%float
  else if present duration && (30 <? ToNumber duration)%float then 7.99%float
  else 4.99%float.
Proof.
  unfold price, present, ToNumber.
  destruct width as [w|], duration as [d|]; cbn [andb];
    repeat match goal with |- context [if ?b then _ else _] => destruct b end;
    reflexivity.
Qed.

(** C2: with [null] read as the number it converts to, the price is 4.99
    when the duration is at most 30 and the width below 3840, 7.99 when the
    duration exceeds 30 and the width is below 3840, and 9.99 whenever the
    width is at least 3840, whatever the duration. *)
Theorem price_tiers (duration width : option float) :
  ((ToNumber duration <=? 30)%float = true ->
   (ToNumber width <? 3840)%float = true ->
   price duration width = 4.99%float) /\
  ((30 <? ToNumber duration)%float = true ->
   (ToNumber width <? 3840)%float = true ->
   price duration width = 7.99%float) /\
  ((3840 <=? ToNumber width)%float = true ->
   price duration width = 9.99%float).
Proof.
  rewrite price_eq. repeat split.
  - intros Hd Hw. rewrite (ltb_not_geb _ _ Hw), (leb_not_gtb _ _ Hd).
    now rewrite !andb_false_r.
  - intros Hd Hw. rewrite (ltb_not_geb _ _ Hw), andb_false_r, Hd, andb_true_r.
    destruct duration as [d|]; [|discriminate Hd].
    cbn [present ToNumber] in *.
    rewrite (above_positive_truthy 30 d); [reflexivity| |now left].
    now eexists _, _.
  - intros Hw. rewrite Hw, andb_true_r.
    destruct width as [w|]; [|discriminate Hw].
    cbn [present ToNumber] in *.
    rewrite (above_positive_truthy 3840 w); [reflexivity| |now right].
    now eexists _, _.
Qed.

Lemma price_tiers_witness :
  price (Some 10%float) (Some 1280%float) = 4.99%float /\
  price (Some 40%float) (Some 1920%float) = 7.99%float /\
  price (Some 40%float) (Some 3840%float) = 9.99%float /\
  price None (Some 3840%float) = 9.99%float /\
  price None None = 4.99%float.
Proof.
  split; [|split; [|split; [|split]]].
  - apply (proj1 (price_tiers (Some 10%float) (Some 1280%float))); reflexivity.
  - apply (proj1 (proj2 (price_tiers (Some 40%float) (Some 1920%float)))); reflexivity.
  - apply (proj2 (proj2 (price_tiers (Some 40%float) (Some 3840%float)))); reflexivity.
  - apply (proj2 (proj2 (price_tiers None (Some 3840%float)))); reflexivity.
  - apply (proj1 (price_tiers None None)); reflexivity.
Defined.

(** * Properties of the orchestrator *)

Section OrchestratorFacts.

Context {World : Type} (env : Collaborators World).

Ltac step :=
  unfold iteration, getVideoMetadata, createMarketplaceListing,
    bind, log, emit, await, ret in *;
  cbn [world trace fst snd] in *.

Ltac tidy := rewrite <- ?app_assoc; cbn [app].

(** Whether the fetch fails, and the world it leaves, depend on the world
    only, not on the trace so far. *)
Lemma getVideoMetadata_world filePath (st st' : state World) :
  world st = world st' ->
  fst (getVideoMetadata env filePath st) = fst (getVideoMetadata env filePath st') /\
  world (snd (getVideoMetadata env filePath st)) =
  world (snd (getVideoMetadata env filePath st')).
Proof.
  intros H. step. rewrite <- H.
  destruct (file_getMetadata env filePath (world st)) as [[metadata|message] w1];
    cbn [world trace fst snd]; [|now split].
  destruct (file_getSignedUrl env filePath w1) as [[url|message] w2];
    cbn [world trace fst snd]; now split.
Qed.

(** A fetch that succeeds gives what [extractMetadata] makes of the
    provider's answers, whatever the custom attributes are. *)
Lemma getVideoMetadata_success filePath (st : state World) metadata w1 url w2 :
  file_getMetadata env filePath (world st) = (Ok metadata, w1) ->
  file_getSignedUrl env filePath w1 = (Ok url, w2) ->
  fst (getVideoMetadata env filePath st) = Some (extractMetadata metadata url).
Proof. intros H1 H2. step. rewrite H1. cbn [world]. now rewrite H2. Qed.

(** A turn whose fetch fails: the error counter goes up by one, and the
    turn adds to the trace neither a call of the classifier or the writer,
    nor an access to the document store, nor a pause. *)
Lemma iteration_fetch_failure total k file s e (st : state World) :
  fst (getVideoMetadata env file st) = None ->
  exists d,
    iteration env total k file (s, e) st =
      ((s, e + 1),
       {| world := world (snd (getVideoMetadata env file st));
          trace := (trace st ++ d)%list |}) /\
    forallb (fun ev => negb (classifies_or_writes ev)) d = true /\
    fetches_and_pauses d = [Call fn_getVideoMetadata file].
Proof.
  intros H. step.
  destruct (file_getMetadata env file (world st)) as [[metadata|message] w1];
    cbn [world trace fst snd] in *.
  - destruct (file_getSignedUrl env file w1) as [[url|message] w2];
      cbn [world trace fst snd] in *; [discriminate H|].
    tidy. eexists. split; [reflexivity|]. split; reflexivity.
  - tidy. eexists. split; [reflexivity|]. split; reflexivity.
Qed.

(** A turn whose fetch succeeds ends with the pause of 500 ms, whether the
    listing was written or not. *)
Lemma iteration_fetch_success total k file c (st : state World) metadata :
  fst (getVideoMetadata env file st) = Some metadata ->
  exists d,
    trace (snd (iteration env total k file c st)) =
    (trace st ++ d ++ [Wait 500])%list.
Proof.
  intros H. destruct c as [s e]. step.
  destruct (file_getMetadata env file (world st)) as [[md|message] w1];
    cbn [world trace fst snd] in *; [|discriminate H].
  destruct (file_getSignedUrl env file w1) as [[url|message] w2];
    cbn [world trace fst snd] in *; [|discriminate H].
  destruct (collection_doc env w2) as [[id|message] w3];
    cbn [world trace fst snd] in *.
  - match goal with |- context [listingRef_set env ?l w3] =>
      destruct (listingRef_set env l w3) as [[[]|message] w4] end;
      cbn [world trace fst snd] in *;
      eexists; rewrite (app_assoc (trace st)); f_equal; tidy; reflexivity.
  - eexists; rewrite (app_assoc (trace st)); f_equal; tidy; reflexivity.
Qed.

(** Every turn adds one to exactly one of the two counters. *)
Lemma iteration_counters total k file s e (st : state World) :
  fst (iteration env total k file (s, e) st) = (s + 1, e) \/
  fst (iteration env total k file (s, e) st) = (s, e + 1).
Proof.
  step.
  destruct (file_getMetadata env file (world st)) as [[md|message] w1];
    cbn [world trace fst snd] in *; [|now right].
  destruct (file_getSignedUrl env file w1) as [[url|message] w2];
    cbn [world trace fst snd] in *; [|now right].
  destruct (collection_doc env w2) as [[id|message] w3];
    cbn [world trace fst snd] in *; [|now right].
  match goal with |- context [listingRef_set env ?l w3] =>
    destruct (listingRef_set env l w3) as [[[]|message] w4] end;
    cbn [world trace fst snd] in *; [now left|now right].
Qed.

(** Every turn starts by announcing the file and fetching its metadata,
    and only adds to the trace. *)
Lemma iteration_trace total k file c (st : state World) :
  exists d,
    trace (snd (iteration env total k file c st)) =
    (trace st ++ Log (LogProcessing (k + 1) total (path_basename env file))
              :: Call fn_getVideoMetadata file :: d)%list.
Proof.
  destruct c as [s e]. step.
  destruct (file_getMetadata env file (world st)) as [[md|message] w1];
    cbn [world trace fst snd] in *;
    [|tidy; eexists; reflexivity].
  destruct (file_getSignedUrl env file w1) as [[url|message] w2];
    cbn [world trace fst snd] in *;
    [|tidy; eexists; reflexivity].
  destruct (collection_doc env w2) as [[id|message] w3];
    cbn [world trace fst snd] in *;
    [|tidy; eexists; reflexivity].
  match goal with |- context [listingRef_set env ?l w3] =>
    destruct (listingRef_set env l w3) as [[[]|message] w4] end;
    cbn [world trace fst snd] in *; tidy; eexists; reflexivity.
Qed.

(** The loop adds the turns of its files one after the other. *)
Lemma loop_cons total k file rest c (st : state World) :
  loop env total k (file :: rest) c st =
  loop env total (k + 1) rest
    (fst (iteration env total k file c st))
    (snd (iteration env total k file c st)).
Proof.
  cbn [loop]. unfold bind at 1.
  now destruct (iteration env total k file c st).
Qed.

Lemma loop_counters total k videoFiles s e (st : state World) :
  let c := fst (loop env total k videoFiles (s, e) st) in
  fst c + snd c = s + e + List.length videoFiles.
Proof.
  revert k s e st.
  induction videoFiles as [|file rest IH]; intros k s e st.
  - cbn. lia.
  - rewrite loop_cons.
    destruct (iteration_counters total k file s e st) as [-> | ->];
      cbn zeta in IH |- *; rewrite IH; cbn [List.length]; lia.
Qed.

(** The loop only adds to the trace, and fetches each of its files. *)
Lemma loop_trace total k videoFiles c (st : state World) :
  exists d,
    trace (snd (loop env total k videoFiles c st)) = (trace st ++ d)%list /\
    forall file, In file videoFiles -> In (Call fn_getVideoMetadata file) d.
Proof.
  revert k c st.
  induction videoFiles as [|file rest IH]; intros k c st.
  - exists []. cbn. split; [now rewrite app_nil_r|intros f []].
  - rewrite loop_cons.
    destruct (IH (k + 1) (fst (iteration env total k file c st))
                (snd (iteration env total k file c st))) as (d2 & -> & Hin).
    destruct (iteration_trace total k file c st) as [d1 ->].
    eexists. split; [rewrite <- app_assoc; reflexivity|].
    intros f [<- | Hf].
    + cbn. right. now left.
    + apply in_or_app. right. now apply Hin.
Qed.

(** A run that finds no candidate file: four events and out. *)
Lemma populateMarketplace_no_candidates (st : state World) files w :
  bucket_getFiles env (world st) = (Ok files, w) ->
  filter (isVideoFile env) files = [] ->
  populateMarketplace env st =
    (Returned,
     {| world := w;
        trace := (trace st ++ [Log LogStart; Storage_getFiles;
                               Log (LogFound 0); Log LogNoFiles])%list |}).
Proof.
  intros Hfiles Hnone.
  unfold populateMarketplace, bind, log, emit, await, ret.
  cbn [world trace]. rewrite Hfiles, Hnone. cbn.
  now rewrite <- !app_assoc.
Qed.

(** A run that finds candidate files: the loop over them, then the
    summary block. *)
Lemma populateMarketplace_candidates (st : state World) files w :
  bucket_getFiles env (world st) = (Ok files, w) ->
  filter (isVideoFile env) files <> [] ->
  populateMarketplace env st =
    let videoFiles := filter (isVideoFile env) files in
    let n := List.length videoFiles in
    let '(counters, st1) :=
      loop env n 0 videoFiles (0, 0)
        {| world := w;
           trace := (trace st ++ [Log LogStart; Storage_getFiles;
                                  Log (LogFound n)])%list |} in
    (Returned,
     {| world := world st1;
        trace := (trace st1 ++ summary (fst counters) (snd counters) n)%list |}).
Proof.
  intros Hfiles Hsome.
  unfold populateMarketplace, bind, log, emit, await, ret.
  cbn [world trace]. rewrite Hfiles. cbn zeta.
  destruct (filter (isVideoFile env) files) as [|file rest] eqn:E;
    [congruence|].
  cbn [List.length Nat.eqb world trace]. tidy.
  destruct (loop env (S (List.length rest)) 0 (file :: rest) (0, 0) _)
    as [[sc ec] st1].
  cbn [world trace fst snd]. tidy. reflexivity.
Qed.

End OrchestratorFacts.

Section OrchestratorClaims.

Context {World : Type} (env : Collaborators World).

(** C7: when the metadata fetch of a candidate file fails, its turn of the
    loop adds one to the error counter and adds to the trace no call of
    the classifier or of the writer and no access to the document store;
    the loop then goes on with the files that follow, each of which is
    fetched in its turn. *)
Theorem fetch_failure_skips_file total k file rest s e (st : state World) :
  fst (getVideoMetadata env file st) = None ->
  exists d,
    let st' := {| world := world (snd (getVideoMetadata env file st));
                  trace := (trace st ++ d)%list |} in
    iteration env total k file (s, e) st = ((s, e + 1), st') /\
    forallb (fun ev => negb (classifies_or_writes ev)) d = true /\
    loop env total k (file :: rest) (s, e) st =
      loop env total (k + 1) rest (s, e + 1) st' /\
    forall next, In next rest ->
      In (Call fn_getVideoMetadata next)
         (trace (snd (loop env total k (file :: rest) (s, e) st))).
Proof.
  intros H.
  destruct (iteration_fetch_failure env total k file s e st H)
    as (d & Hturn & Hquiet & _).
  exists d. cbn zeta. split; [exact Hturn|]. split; [exact Hquiet|].
  assert (Hloop : loop env total k (file :: rest) (s, e) st =
                  loop env total (k + 1) rest (s, e + 1)
                    {| world := world (snd (getVideoMetadata env file st));
                       trace := (trace st ++ d)%list |}).
  { rewrite loop_cons, Hturn. reflexivity. }
  split; [exact Hloop|].
  intros next Hnext. rewrite Hloop.
  match goal with |- context [loop env total (k + 1) rest ?c ?st1] =>
    destruct (loop_trace env total (k + 1) rest c st1) as (d' & -> & Hin) end.
  apply in_or_app. right. now apply Hin.
Qed.

(** C8 (amended): when no listed file is a video, the run returns at once:
    after the opening line and the listing of the bucket it reports that
    0 video files were found and that there is none to process.  It
    fetches nothing, writes nothing to the document store, does not pause,
    and does not print the block of succeeded, failed and total counts. *)
Theorem no_candidates_returns_at_once (st : state World) files w :
  bucket_getFiles env (world st) = (Ok files, w) ->
  filter (isVideoFile env) files = [] ->
  populateMarketplace env st =
    (Returned,
     {| world := w;
        trace := (trace st ++ [Log LogStart; Storage_getFiles;
                               Log (LogFound 0); Log LogNoFiles])%list |}).
Proof. apply populateMarketplace_no_candidates. Qed.

(** C10: every turn of the loop adds one to exactly one of the two
    counters; so the loop ends with counters whose sum has grown by the
    number of files it went through; a run that finds candidate files
    returns after a summary block whose success and error counts add up to
    the number of candidate files, which is the total it reports; and every
    run that lists the bucket returns having reported the number of
    candidate files it found. *)
Theorem counters_account_for_every_file :
  (forall total k file s e (st : state World),
      fst (iteration env total k file (s, e) st) = (s + 1, e) \/
      fst (iteration env total k file (s, e) st) = (s, e + 1)) /\
  (forall total k videoFiles s e (st : state World),
      let c := fst (loop env total k videoFiles (s, e) st) in
      fst c + snd c = s + e + List.length videoFiles) /\
  (forall (st : state World) files w,
      bucket_getFiles env (world st) = (Ok files, w) ->
      let videoFiles := filter (isVideoFile env) files in
      videoFiles <> [] ->
      exists successCount errorCount pre,
        successCount + errorCount = List.length videoFiles /\
        fst (populateMarketplace env st) = Returned /\
        trace (snd (populateMarketplace env st)) =
          (pre ++ summary successCount errorCount (List.length videoFiles))%list) /\
  (forall (st : state World) files w,
      bucket_getFiles env (world st) = (Ok files, w) ->
      fst (populateMarketplace env st) = Returned /\
      In (Log (LogFound (List.length (filter (isVideoFile env) files))))
         (trace (snd (populateMarketplace env st)))).
Proof.
  split; [|split; [|split]].
  - intros. apply iteration_counters.
  - intros. apply loop_counters.
  - intros st files w Hfiles videoFiles Hsome.
    rewrite (populateMarketplace_candidates env st files w Hfiles Hsome).
    cbn zeta. subst videoFiles.
    match goal with |- context [loop env ?n 0 ?l (0, 0) ?st0] =>
      pose proof (loop_counters env n 0 l 0 0 st0) as Hsum;
      destruct (loop env n 0 l (0, 0) st0) as [[sc ec] st1] end.
    cbn in Hsum. exists sc, ec, (trace st1). now split.
  - intros st files w Hfiles.
    destruct (filter (isVideoFile env) files) as [|file rest] eqn:E.
    + rewrite (populateMarketplace_no_candidates env st files w Hfiles E).
      split; [reflexivity|]. cbn [snd trace List.length].
      apply in_or_app. right. cbn. tauto.
    + assert (Hsome : filter (isVideoFile env) files <> []) by congruence.
      rewrite (populateMarketplace_candidates env st files w Hfiles Hsome).
      cbn zeta. rewrite E.
      match goal with |- context [loop env ?n 0 ?l (0, 0) ?st0] =>
        destruct (loop_trace env n 0 l (0, 0) st0) as (d & Hd & _);
        destruct (loop env n 0 l (0, 0) st0) as [[sc ec] st1] end.
      cbn [fst snd world trace] in *. split; [reflexivity|].
      rewrite Hd. apply in_or_app. left. apply in_or_app. left.
      apply in_or_app. right. cbn. tauto.
Qed.

End OrchestratorClaims.

Lemma fetch_failure_skips_file_witness :
  let env := example ["clips/sunset-beach.mp4"; "clips/city-night.mp4"]
                     ["clips/sunset-beach.mp4"] [] in
  fst (getVideoMetadata env "clips/sunset-beach.mp4" initial) = None /\
  fst (iteration env 2 0 "clips/sunset-beach.mp4" (0, 0) initial) = (0, 1) /\
  In (Call fn_getVideoMetadata "clips/city-night.mp4")
     (trace (snd (loop env 2 0 ["clips/sunset-beach.mp4"; "clips/city-night.mp4"]
                    (0, 0) initial))).
Proof.
  intros env. split; [reflexivity|].
  destruct (fetch_failure_skips_file env 2 0 "clips/sunset-beach.mp4"
              ["clips/city-night.mp4"] 0 0 initial eq_refl)
    as (d & Hturn & _ & _ & Hnext).
  split.
  - exact (f_equal fst Hturn).
  - apply Hnext. now left.
Defined.

(** C8 (as stated, refuted): a bucket without video files; the run reports
    no count of succeeded or failed files at all. *)
Lemma no_summary_without_candidates :
  let tr := trace (snd (run ["README.md"; "thumbs/poster.png"] [] [])) in
  ~ (reports_summary tr 0 0 0 /\
     forallb (fun e => negb (is_write e)) tr = true).
Proof.
  vm_compute. intros [(H & _ & _) _].
  repeat (destruct H as [H | H]; [discriminate H|]). exact H.
Qed.

Lemma no_candidates_returns_at_once_witness :
  run ["README.md"; "thumbs/poster.png"] [] [] =
    (Returned,
     {| world := [];
        trace := [Log LogStart; Storage_getFiles; Log (LogFound 0);
                  Log LogNoFiles] |}).
Proof.
  exact (no_candidates_returns_at_once
           (example ["README.md"; "thumbs/poster.png"] [] []) initial
           ["README.md"; "thumbs/poster.png"] [] eq_refl eq_refl).
Defined.

Lemma counters_account_for_every_file_witness :
  let env := example ["clips/sunset-beach.mp4"; "notes.txt"; "clips/city-night.mp4"]
                     ["clips/sunset-beach.mp4"] [] in
  exists successCount errorCount pre,
    successCount + errorCount = 2 /\
    fst (populateMarketplace env initial) = Returned /\
    trace (snd (populateMarketplace env initial)) =
      (pre ++ summary successCount errorCount 2)%list.
Proof.
  intros env.
  assert (H : filter (isVideoFile env)
                ["clips/sunset-beach.mp4"; "notes.txt"; "clips/city-night.mp4"]
              <> []) by (vm_compute; discriminate).
  exact (proj1 (proj2 (proj2 (counters_account_for_every_file env))) initial
           ["clips/sunset-beach.mp4"; "notes.txt"; "clips/city-night.mp4"] []
           eq_refl H).
Defined.

(** C3 (the code at the failing input): a bucket of two videos.  When the
    first has no metadata to give, the fetch of the second follows the
    failed fetch with no pause in between; the only pause of the run comes
    after the second file, which was processed.  When neither has, the run
    does not pause at all. *)
Theorem no_pause_after_failed_fetch :
  fetches_and_pauses
    (trace (snd (run ["clips/sunset-beach.mp4"; "clips/city-night.mp4"]
                     ["clips/sunset-beach.mp4"] []))) =
    [Call fn_getVideoMetadata "clips/sunset-beach.mp4";
     Call fn_getVideoMetadata "clips/city-night.mp4";
     Wait 500] /\
  trace (snd (run ["clips/sunset-beach.mp4"; "clips/city-night.mp4"]
                  ["clips/sunset-beach.mp4"; "clips/city-night.mp4"] [])) =
    [Log LogStart; Storage_getFiles; Log (LogFound 2);
     Log (LogProcessing 1 2 "sunset-beach.mp4");
     Call fn_getVideoMetadata "clips/sunset-beach.mp4";
     Storage_getMetadata "clips/sunset-beach.mp4";
     Log (ErrMetadata "clips/sunset-beach.mp4" "No such object");
     Log LogSkipping;
     Log (LogProcessing 2 2 "city-night.mp4");
     Call fn_getVideoMetadata "clips/city-night.mp4";
     Storage_getMetadata "clips/city-night.mp4";
     Log (ErrMetadata "clips/city-night.mp4" "No such object");
     Log LogSkipping;
     Log LogRule; Log LogComplete; Log (LogSuccess 0); Log (LogErrors 2);
     Log (LogTotal 2); Log LogRule].
Proof. split; vm_compute; reflexivity. Qed.

(** * Properties of the fetched attributes and of the aspect ratio *)

(** C4 (as stated, refuted): a file whose width and duration attributes
    are present but are not numbers.  The fetch succeeds, and the two fields
    come out as [NaN], not as [null]. *)
Lemma unparsable_attribute_is_not_null :
  let env := example ["clips/city-night.mp4"] []
               [("clips/city-night.mp4",
                 [("width", AStr "abc"); ("duration", AStr "n/a")])] in
  parseInt "abc" = nan /\ parseFloat "n/a" = nan /\
  ~ (forall m,
        fst (getVideoMetadata env "clips/city-night.mp4" initial) = Some m ->
        md_width m = None /\ md_height m = None /\ md_duration m = None).
Proof.
  cbv zeta. split; [reflexivity|]. split; [reflexivity|].
  intros H. destruct (H _ eq_refl) as (Hw & _). discriminate Hw.
Qed.

(** C4 (amended): in the result of the fetcher, each of width, height and
    duration is [null] when its custom attribute is absent, the empty string
    or the boolean false; otherwise it is what [parseInt] (width, height) or
    [parseFloat] (duration) makes of the attribute, which is [NaN], not
    [null], when the attribute is not a number; in no case does the fetch
    fail for it.  [hasAudio] is true exactly when the attribute is the
    boolean true or the string "true". *)
Theorem custom_attributes_parsed :
  (forall metadata url,
      let m := extractMetadata metadata url in
      let b := match sm_metadata metadata with Some b => b | None => [] end in
      md_width m = parsedInt (lookup b "width") /\
      md_height m = parsedInt (lookup b "height") /\
      md_duration m = parsedFloat (lookup b "duration") /\
      md_hasAudio m = isTrue (lookup b "hasAudio")) /\
  (forall a,
      a = None \/ a = Some (AStr "") \/ a = Some (ABool false) ->
      parsedInt a = None /\ parsedFloat a = None) /\
  (forall s,
      s <> "" ->
      parsedInt (Some (AStr s)) = Some (parseInt s) /\
      parsedFloat (Some (AStr s)) = Some (parseFloat s)) /\
  (parsedInt (Some (ABool true)) = Some nan /\
   parsedFloat (Some (ABool true)) = Some nan) /\
  (forall a, isTrue a = true <-> a = Some (ABool true) \/ a = Some (AStr "true")) /\
  (forall World (env : Collaborators World) filePath (st : state World)
          metadata w1 url w2,
      file_getMetadata env filePath (world st) = (Ok metadata, w1) ->
      file_getSignedUrl env filePath w1 = (Ok url, w2) ->
      fst (getVideoMetadata env filePath st) = Some (extractMetadata metadata url)).
Proof.
  split; [|split; [|split; [|split; [|split]]]].
  - intros metadata url. cbn zeta. unfold extractMetadata. cbn [md_width md_height md_duration md_hasAudio].
    repeat split.
  - intros a [-> | [-> | ->]]; split; reflexivity.
  - intros s Hs. unfold parsedInt, parsedFloat, attr_truthy.
    destruct (s =? "") eqn:E; [apply String.eqb_eq in E; contradiction|].
    split; reflexivity.
  - split; reflexivity.
  - intros a. split.
    + destruct a as [[s|[|]]|]; cbn [isTrue]; intros H; try discriminate H.
      * right. apply String.eqb_eq in H. now subst.
      * now left.
    + intros [-> | ->]; reflexivity.
  - intros World env filePath st metadata w1 url w2.
    apply getVideoMetadata_success.
Qed.

Lemma custom_attributes_parsed_witness :
  parsedInt (Some (AStr "abc")) = Some nan /\
  parsedFloat (Some (AStr "12.5")) = Some 12.5%float /\
  parsedInt None = None /\
  isTrue (Some (AStr "true")) = true /\
  fst (getVideoMetadata (example ["clips/city-night.mp4"] [] [])
         "clips/city-night.mp4" initial) =
    Some (extractMetadata (metadataWith None)
            "https://storage.example/clips/city-night.mp4").
Proof.
  destruct custom_attributes_parsed as (_ & Hnull & Hparse & _ & Haudio & Hfetch).
  split; [|split; [|split; [|split]]].
  - exact (proj1 (Hparse "abc" ltac:(discriminate))).
  - exact (proj2 (Hparse "12.5" ltac:(discriminate))).
  - exact (proj1 (Hnull None (or_introl eq_refl))).
  - apply (proj2 (Haudio (Some (AStr "true")))). now right.
  - exact (Hfetch store (example ["clips/city-night.mp4"] [] [])
             "clips/city-night.mp4" initial (metadataWith None) [] _ []
             eq_refl eq_refl).
Defined.

(** C6: [getAspectRatio] is "Unknown" when a dimension is missing or zero;
    otherwise it is the label of the first of the canonical ratios 16:9,
    9:16, 1:1, 4:3, 21:9, in this order, that the ratio of width to height
    is within 0.1 of, and the width, "x" and the height when there is none.
    In particular 1920 by 1080 is "16:9 (Landscape)", 1080 by 1920 is
    "9:16 (Portrait)", 0 by 1080 is "Unknown" and 1280 by 960 is
    "4:3 (Standard)". *)
Theorem aspect_ratio_classification :
  (forall width height,
      getAspectRatio width height = aspectRatio_spec width height) /\
  (forall width height,
      missing_or_zero width = true \/ missing_or_zero height = true ->
      getAspectRatio width height = lit "Unknown") /\
  getAspectRatio (Some 1920%float) (Some 1080%float) = lit "16:9 (Landscape)" /\
  getAspectRatio (Some 1080%float) (Some 1920%float) = lit "9:16 (Portrait)" /\
  getAspectRatio (Some 0%float) (Some 1080%float) = lit "Unknown" /\
  getAspectRatio (Some 1280%float) (Some 960%float) = lit "4:3 (Standard)".
Proof.
  assert (Hspec : forall width height,
             getAspectRatio width height = aspectRatio_spec width height).
  { intros [w|] [h|]; unfold getAspectRatio, aspectRatio_spec, missing_or_zero;
      cbn [present ToNumber]; try reflexivity.
    - destruct (truthy w), (truthy h); cbn [negb orb]; try reflexivity.
      cbn [find canonicalRatios fst snd]. unfold within_tolerance.
      repeat match goal with
             | |- context [if ?b then _ else _] => destruct b
             end; reflexivity.
    - now destruct (truthy w). }
  split; [exact Hspec|]. split; [|repeat split].
  intros width height H. rewrite Hspec. unfold aspectRatio_spec.
  destruct H as [-> | ->]; [reflexivity|].
  now rewrite orb_true_r.
Qed.

Lemma aspect_ratio_classification_witness :
  getAspectRatio None (Some 1080%float) = lit "Unknown" /\
  getAspectRatio (Some 1920%float) (Some nan) = lit "Unknown".
Proof.
  split.
  - apply (proj1 (proj2 aspect_ratio_classification)). left. reflexivity.
  - apply (proj1 (proj2 aspect_ratio_classification)). right. reflexivity.
Defined.

(** * The embedding on the examples of the specification *)

Example words_examples :
  cleanName "myCoolVideo_final-CITY.MOV" = "my cool video final city" /\
  words "myCoolVideo_final-CITY.MOV" = ["cool"; "video"; "final"; "city"] /\
  split_ws " a  b " = [""; "a"; "b"; ""] /\
  split_ws "" = [""] /\
  removeExtension "clip.WebM" = "clip" /\
  removeExtension "clip.mp4.txt" = "clip.mp4.txt" /\
  words ".mp4" = [].
Proof. vm_compute. repeat split. Qed.

Example heartbeat_is_cut_to_ten_tags :
  let d := parseFilename "heartbeat-technology-aerial-nature.webm" in
  tags d = ["stock footage"; "video clip"; "technology"; "tech"; "digital";
            "modern"; "aerial"; "drone"; "birds eye"; "top view"] /\
  useCases d = ["Tech Reviews"; "Marketing"; "Presentations"; "Real Estate";
                "Travel"; "Documentaries"].
Proof. vm_compute. split; reflexivity. Qed.

Example parseInt_examples :
  parseInt "1920" = 1920%float /\ parseInt "  -12px" = (-12)%float /\
  parseInt "0x10" = 16%float /\ parseInt "+7.9" = 7%float /\
  parseInt "-0" = neg_zero /\ parseInt "" = nan /\ parseInt "abc" = nan /\
  parseInt "0x" = nan /\ parseInt "true" = nan /\
  parseInt "9007199254740993" = 9007199254740992%float.
Proof. vm_compute. repeat split. Qed.

Example parseFloat_examples :
  parseFloat "45.5" = 45.5%float /\ parseFloat "0.1" = 0.1%float /\
  parseFloat ".5" = 0.5%float /\ parseFloat "5." = 5%float /\
  parseFloat "1e3" = 1000%float /\ parseFloat "1e" = 1%float /\
  parseFloat "-.5e-3abc" = (-0.0005)%float /\ parseFloat "1.5.3" = 1.5%float /\
  parseFloat "Infinityx" = infinity /\ parseFloat "1e400" = infinity /\
  parseFloat "." = nan /\ parseFloat "n/a" = nan /\
  parseFloat "4.9e-324" = 4.9e-324%float /\
  parseFloat "2.4703282292062327e-324" = 0%float /\
  parseFloat "0.30000000000000004" = 0.30000000000000004%float.
Proof. vm_compute. repeat split. Qed.

Example floor_and_remainder_examples :
  Math_floor 1.5 = 1%float /\ Math_floor (-1.5) = (-2)%float /\
  Math_floor (-0.5) = (-1)%float /\ Math_floor 0.5 = 0%float /\
  Math_floor 95 = 95%float /\ Math_floor nan = nan /\
  Number_remainder 95 60 = 35%float /\
  Number_remainder (-95) 60 = (-35)%float /\
  Number_remainder 125.75 60 = 5.75%float /\
  Number_remainder (-120) 60 = neg_zero /\
  Number_remainder 1e22 60 = 40%float /\
  Number_remainder 5 0 = nan /\ Number_remainder infinity 60 = nan.
Proof. vm_compute. repeat split. Qed.

(** [durationLabel(95)], [durationLabel(45)] and [durationLabel(0)]. *)
Example formatDuration_examples :
  formatDuration (Some 95%float) = [Num 1; Lit "m "; Num 35; Lit "s"] /\
  formatDuration (Some 45%float) = [Num 45; Lit "s"] /\
  formatDuration (Some 0%float) = lit "Unknown" /\
  formatDuration None = lit "Unknown" /\
  formatDuration (Some 45.7%float) = [Num 45; Lit "s"].
Proof. vm_compute. repeat split. Qed.

(** At the edge of the tolerance the rounding of binary64 decides: 169/90
    and 151/90 are both at distance 0.1 from 16/9 over the rationals. *)
Example getAspectRatio_at_the_tolerance :
  getAspectRatio (Some 169%float) (Some 90%float) = [Num 169; Lit "x"; Num 90] /\
  getAspectRatio (Some 151%float) (Some 90%float) = lit "16:9 (Landscape)" /\
  getAspectRatio (Some 2560%float) (Some 1080%float) = lit "21:9 (Ultrawide)" /\
  getAspectRatio (Some 1000%float) (Some 1000%float) = lit "1:1 (Square)".
Proof. vm_compute. repeat split. Qed.

Example posix_path_examples :
  map posix_basename ["a/b/c.mp4"; "c.mp4"; "a/b/"; "/"; ""] =
    ["c.mp4"; "c.mp4"; "b"; ""; ""] /\
  map posix_extname ["a/b/c.mp4"; "c.MP4"; "a.b/c"; ".bashrc"; ".."; "a.";
                     "x/y.tar.gz/"; "index"] =
    [".mp4"; ".MP4"; ""; ""; ""; "."; ".gz"; ""].
Proof. vm_compute. split; reflexivity. Qed.

(** A run over two videos and a text file, the first video unreadable: one
    listing is written, and the summary counts one success and one error. *)
Example run_example :
  let r := run ["clips/sunset-beach.mp4"; "notes.txt"; "clips/city-night.mp4"]
               ["clips/sunset-beach.mp4"] [] in
  fst r = Returned /\
  map ls_title (world (snd r)) = ["City Night"] /\
  map ls_tags (world (snd r)) =
    [["stock footage"; "video clip"; "urban"; "cityscape"; "architecture";
      "downtown"; "night"; "evening"; "dark"; "nighttime"]] /\
  skipn 24 (trace (snd r)) = (Wait 500 :: summary 1 1 2)%list.
Proof. vm_compute. repeat split. Qed.

(** A 4K video of 95.5 seconds with sound, and one whose attributes are not
    numbers. *)
Example attributes_example :
  let r := run ["oceanWaves.mp4"; "b-roll.mov"] []
               [("oceanWaves.mp4",
                 [("width", AStr "3840"); ("height", AStr "2160");
                  ("duration", AStr "95.5"); ("hasAudio", AStr "true")]);
                ("b-roll.mov",
                 [("width", AStr "wide"); ("height", AStr "1080");
                  ("duration", AStr "n/a"); ("hasAudio", ABool false)])] in
  map ls_title (world (snd r)) = ["Ocean Waves"; "Roll"] /\
  map ls_price (world (snd r)) = [9.99%float; 4.99%float] /\
  map ls_aspectRatio (world (snd r)) = [lit "16:9 (Landscape)"; lit "Unknown"] /\
  map ls_duration (world (snd r)) =
    [[Num 1; Lit "m "; Num 35; Lit "s"]; lit "Unknown"] /\
  map ls_durationSeconds (world (snd r)) = [Some 95.5%float; Some nan] /\
  map ls_resolution (world (snd r)) =
    [[Num 3840; Lit "x"; Num 2160]; lit "Unknown"] /\
  map ls_hasAudio (world (snd r)) = [true; false].
Proof. vm_compute. repeat split. Qed.

(** * Further properties of the classifier *)

Section FoldFacts.

Context {A B : Type} (f : A -> B -> A) (P : A -> Prop).

(** What every step keeps, the fold keeps. *)
Lemma fold_left_invariant (xs : list B) :
  (forall acc x, In x xs -> P acc -> P (f acc x)) ->
  forall acc, P acc -> P (fold_left f xs acc).
Proof.
  induction xs as [|x xs IH]; intros Hstep acc Hacc; cbn [fold_left].
  - exact Hacc.
  - apply IH.
    + intros acc' y Hy. apply Hstep. now right.
    + apply Hstep; [now left|exact Hacc].
Qed.


End FoldFacts.

Lemma set_add_In (x t : string) (s : list string) :
  In t (set_add x s) <-> In t s \/ t = x.
Proof.
  unfold set_add. destruct (existsb (String.eqb x) s) eqn:E.
  - split; [now left|]. intros [H | ->]; [exact H|].
    apply existsb_exists in E. destruct E as (y & Hy & Hxy).
    apply String.eqb_eq in Hxy. now subst.
  - rewrite in_app_iff. cbn. intuition.
Qed.

Lemma set_add_all_In (xs s : list string) (t : string) :
  In t (set_add_all xs s) <-> In t s \/ In t xs.
Proof.
  unfold set_add_all. revert s.
  induction xs as [|x xs IH]; intros s; cbn [fold_left].
  - cbn. intuition.
  - rewrite IH, set_add_In. cbn. intuition.
Qed.

Lemma set_add_NoDup (x : string) (s : list string) :
  NoDup s -> NoDup (set_add x s).
Proof.
  intros H. unfold set_add. destruct (existsb (String.eqb x) s) eqn:E; [exact H|].
  apply NoDup_app; [exact H|repeat constructor; intros []|].
  intros y Hy [Hxy | []].
  assert (Hex : existsb (String.eqb x) s = true).
  { apply existsb_exists. exists y. split; [exact Hy|].
    subst y. apply String.eqb_refl. }
  congruence.
Qed.

Lemma set_add_all_NoDup (xs s : list string) :
  NoDup s -> NoDup (set_add_all xs s).
Proof.
  unfold set_add_all. intros H.
  apply (fold_left_invariant (fun acc x => set_add x acc) (@NoDup string)).
  - intros acc x _. apply set_add_NoDup.
  - exact H.
Qed.

Lemma In_firstn {A : Type} (n : nat) (l : list A) (x : A) :
  In x (firstn n l) -> In x l.
Proof.
  revert l. induction n as [|n IH]; intros [|a l]; cbn; try tauto.
  intros [-> | H]; [now left|right; now apply IH].
Qed.

Lemma NoDup_firstn_keeps {A : Type} (n : nat) (l : list A) :
  NoDup l -> NoDup (firstn n l).
Proof.
  revert l. induction n as [|n IH]; intros [|a l] H; cbn; try constructor.
  - inversion H; subst. intros Hin. now apply In_firstn in Hin.
  - inversion H; subst. now apply IH.
Qed.

(** The two components after a visit of a category. *)
Lemma visitCategory_fst word acc category :
  fst (visitCategory word acc category) =
  if matches word category then
    match get categoryMap category with
    | Some ts => set_add_all ts (fst acc)
    | None => fst acc
    end
  else fst acc.
Proof. unfold visitCategory. now destruct (matches word category). Qed.

Lemma visitCategory_snd word acc category :
  snd (visitCategory word acc category) =
  if matches word category then
    match get useCaseMap category with
    | Some ucs => set_add_all ucs (snd acc)
    | None => snd acc
    end
  else snd acc.
Proof. unfold visitCategory. now destruct (matches word category). Qed.

Lemma parseFilename_useCases_eq filename :
  useCases (parseFilename filename) = finalUseCases (snd (collect (words filename))).
Proof. unfold parseFilename. now destruct (collect (words filename)). Qed.


(** Both sets stay free of duplicates all along. *)
Lemma collect_NoDup ws :
  NoDup (fst (collect ws)) /\ NoDup (snd (collect ws)).
Proof.
  unfold collect.
  apply (fold_left_invariant visitWord
           (fun acc => NoDup (fst acc) /\ NoDup (snd acc))).
  - intros acc w _ Hacc. unfold visitWord.
    apply (fold_left_invariant (visitCategory w)
             (fun acc => NoDup (fst acc) /\ NoDup (snd acc))); [|exact Hacc].
    intros acc' c _ [H1 H2].
    rewrite visitCategory_fst, visitCategory_snd.
    destruct (matches w c); [|now split].
    split.
    + destruct (get categoryMap c); [now apply set_add_all_NoDup|exact H1].
    + destruct (get useCaseMap c); [now apply set_add_all_NoDup|exact H2].
  - split; [|constructor].
    unfold baselineTags. cbn [fst].
    repeat constructor; cbn; intuition discriminate.
Qed.

Lemma parseFilename_title_nonempty filename :
  title (parseFilename filename) <> "".
Proof.
  rewrite parseFilename_title.
  destruct (rawTitle filename =? "") eqn:E; [discriminate|].
  now apply String.eqb_neq in E.
Qed.

(** X1: whatever the filename, no tag and no use case of the descriptor
    occurs twice. *)
Theorem descriptor_sets_have_no_duplicates (filename : string) :
  NoDup (tags (parseFilename filename)) /\
  NoDup (useCases (parseFilename filename)).
Proof.
  rewrite parseFilename_tags, parseFilename_useCases_eq.
  destruct (collect_NoDup (words filename)) as [H1 H2].
  split; [now apply NoDup_firstn_keeps|].
  unfold finalUseCases. apply NoDup_firstn_keeps.
  destruct (List.length (snd (collect (words filename))) =? 0)%nat;
    [now apply set_add_all_NoDup|exact H2].
Qed.

(** X2: whatever the filename, the descriptor has a title that is not
    empty, from two to ten tags and from one to six use cases. *)
Theorem descriptor_is_well_formed (filename : string) :
  let d := parseFilename filename in
  title d <> "" /\
  2 <= List.length (tags d) <= 10 /\
  1 <= List.length (useCases d) <= 6.
Proof.
  cbn zeta. split; [|split; split].
  - apply parseFilename_title_nonempty.
  - rewrite parseFilename_tags.
    destruct (collect_baseline (words filename)) as [l ->].
    cbn [firstn List.length]. lia.
  - rewrite parseFilename_tags. apply firstn_le_length.
  - rewrite parseFilename_useCases_eq. unfold finalUseCases.
    destruct (snd (collect (words filename))) as [|u us].
    + cbn. lia.
    + cbn [List.length Nat.eqb firstn]. lia.
  - apply parseFilename_useCases.
Qed.

Lemma collect_justified ws :
  (forall t, In t (fst (collect ws)) ->
             In t baselineTags \/ brought_by categoryMap ws t) /\
  (forall u, In u (snd (collect ws)) -> brought_by useCaseMap ws u).
Proof.
  unfold collect.
  apply (fold_left_invariant visitWord
           (fun acc =>
              (forall t, In t (fst acc) ->
                         In t baselineTags \/ brought_by categoryMap ws t) /\
              (forall u, In u (snd acc) -> brought_by useCaseMap ws u))).
  - intros acc w Hw Hacc. unfold visitWord.
    apply (fold_left_invariant (visitCategory w)
             (fun acc =>
                (forall t, In t (fst acc) ->
                           In t baselineTags \/ brought_by categoryMap ws t) /\
                (forall u, In u (snd acc) -> brought_by useCaseMap ws u)));
      [|exact Hacc].
    intros acc' c _ [H1 H2].
    rewrite visitCategory_fst, visitCategory_snd.
    destruct (matches w c) eqn:Hm; [|now split].
    split.
    + destruct (get categoryMap c) as [ts|] eqn:Hg; [|exact H1].
      intros t Ht. apply set_add_all_In in Ht. destruct Ht as [Ht | Ht].
      * now apply H1.
      * right. now exists w, c, ts.
    + destruct (get useCaseMap c) as [ucs|] eqn:Hg; [|exact H2].
      intros u Hu. apply set_add_all_In in Hu. destruct Hu as [Hu | Hu].
      * now apply H2.
      * now exists w, c, ucs.
  - cbn [fst snd]. split; [intros t Ht; now left|intros u []].
Qed.

(** X3: every tag of the descriptor is a baseline tag or a tag of a
    category that one of the words of the filename matches, and every use
    case is a generic one or a use case of such a category: nothing is
    tagged without a word for it. *)
Theorem every_tag_is_justified (filename : string) :
  let d := parseFilename filename in
  (forall t, In t (tags d) ->
             In t baselineTags \/ brought_by categoryMap (words filename) t) /\
  (forall u, In u (useCases d) ->
             In u genericUseCases \/ brought_by useCaseMap (words filename) u).
Proof.
  cbn zeta. destruct (collect_justified (words filename)) as [H1 H2]. split.
  - intros t Ht. rewrite parseFilename_tags in Ht.
    apply In_firstn in Ht. now apply H1.
  - intros u Hu. rewrite parseFilename_useCases_eq in Hu.
    unfold finalUseCases in Hu. apply In_firstn in Hu.
    destruct (List.length (snd (collect (words filename))) =? 0)%nat.
    + apply set_add_all_In in Hu. destruct Hu as [Hu | Hu]; [|now left].
      right. now apply H2.
    + right. now apply H2.
Qed.

Lemma every_tag_is_justified_witness :
  In "urban" baselineTags \/
  brought_by categoryMap (words "city-night.mp4") "urban".
Proof.
  apply (proj1 (every_tag_is_justified "city-night.mp4")).
  vm_compute. tauto.
Defined.








(** ** The words of a filename *)

Lemma string_forall_app p (a b : string) :
  string_forall p (a ++ b) = string_forall p a && string_forall p b.
Proof.
  induction a as [|c a IH]; cbn [append string_forall]; [reflexivity|].
  now rewrite IH, andb_assoc.
Qed.

Lemma string_forall_map (p q : ascii -> bool) (f : ascii -> ascii) (s : string) :
  (forall c, p c = true -> q (f c) = true) ->
  string_forall p s = true -> string_forall q (map_string f s) = true.
Proof.
  intros Hf. induction s as [|c s IH]; cbn [map_string string_forall]; [easy|].
  intros H. apply andb_prop in H. destruct H as [Hc Hs].
  now rewrite (Hf c Hc), IH.
Qed.

Lemma string_forall_true (s : string) :
  string_forall (fun _ => true) s = true.
Proof. induction s; cbn; auto. Qed.

(** The pass over camel case only adds spaces. *)
Lemma splitCamelCase_forall p (s : string) :
  p " "%char = true ->
  string_forall p s = true -> string_forall p (splitCamelCase s) = true.
Proof.
  intros Hsp. induction s as [|c1 rest IH]; [easy|].
  cbn [string_forall]. intros H. apply andb_prop in H. destruct H as [Hc Hrest].
  cbn [splitCamelCase]. destruct rest as [|c2 rest'].
  - cbn. now rewrite Hc.
  - destruct (is_lower c1 && is_upper c2);
      cbn [string_forall]; rewrite Hc, ?Hsp, (IH Hrest); reflexivity.
Qed.

(** The pieces of a split are made of the characters of the string that are
    not white space. *)
Lemma split_from_forall p (s cur : string) (insep : bool) :
  string_forall (fun c => is_space c || p c) s = true ->
  string_forall p cur = true ->
  Forall (fun w => string_forall p w = true) (split_from s cur insep).
Proof.
  revert cur insep. induction s as [|c s IH]; intros cur insep Hs Hcur.
  - cbn. now constructor.
  - cbn [string_forall] in Hs. apply andb_prop in Hs. destruct Hs as [Hc Hs].
    cbn [split_from]. destruct (is_space c) eqn:Esp.
    + destruct insep; [now apply IH|].
      constructor; [exact Hcur|now apply IH].
    + apply IH; [exact Hs|].
      cbn [orb] in Hc.
      rewrite string_forall_app, Hcur. cbn [string_forall andb].
      now rewrite Hc.
Qed.

Lemma lower_char_word (c : ascii) :
  negb ((c =? "-")%char || (c =? "_")%char) = true ->
  is_space (lower_char c) || word_char (lower_char c) = true.
Proof.
  destruct c as [[] [] [] [] [] [] [] []]; vm_compute; congruence.
Qed.



(** Every character of the cleaned name is white space or fit for a word. *)
Lemma cleanName_chars (filename : string) :
  string_forall (fun c => is_space c || word_char c) (cleanName filename) = true.
Proof.
  unfold cleanName, toLowerCase.
  apply (string_forall_map
           (fun c => negb ((c =? "-")%char || (c =? "_")%char)));
    [exact lower_char_word|].
  apply splitCamelCase_forall; [reflexivity|].
  unfold replaceSeparators.
  apply (string_forall_map (fun _ => true)); [|apply string_forall_true].
  intros c _. destruct ((c =? "-")%char || (c =? "_")%char) eqn:E; [reflexivity|].
  now rewrite E.
Qed.

Lemma words_chars (filename w : string) :
  In w (words filename) -> string_forall word_char w = true.
Proof.
  intros H. unfold words in H. apply filter_In in H. destruct H as [H _].
  unfold split_ws in H.
  pose proof (split_from_forall word_char (cleanName filename) "" false
                (cleanName_chars filename) eq_refl) as Hall.
  rewrite Forall_forall in Hall. now apply Hall.
Qed.

(** X5: every word taken from a filename has more than two characters, none
    of which is white space, an upper-case letter, a hyphen or an
    underscore. *)
Theorem words_are_clean (filename w : string) :
  In w (words filename) ->
  2 < length w /\ string_forall word_char w = true.
Proof.
  intros H. split; [now apply (words_long filename)|now apply (words_chars filename)].
Qed.

Lemma words_are_clean_witness :
  2 < length "cool" /\ string_forall word_char "cool" = true.
Proof.
  apply (words_are_clean "myCoolVideo_final-CITY.MOV" "cool").
  vm_compute. tauto.
Defined.

Lemma map_string_app f (a b : string) :
  map_string f (a ++ b) = map_string f a ++ map_string f b.
Proof.
  induction a as [|c a IH]; cbn [append map_string]; [reflexivity|].
  now rewrite IH.
Qed.






(** ** The extension *)

Lemma string_length_app (a b : string) :
  length (a ++ b) = length a + length b.
Proof. induction a as [|c a IH]; cbn [append length]; [reflexivity|]. now rewrite IH. Qed.

Lemma map_string_length f (s : string) : length (map_string f s) = length s.
Proof. induction s as [|c s IH]; cbn [map_string length]; [reflexivity|]. now rewrite IH. Qed.

Lemma map_string_substring f (n m : nat) (s : string) :
  map_string f (substring n m s) = substring n m (map_string f s).
Proof.
  revert n m. induction s as [|c s IH]; intros [|n] [|m]; cbn [substring map_string];
    try reflexivity; now rewrite IH.
Qed.

Lemma substring_skip (a b : string) (i k : nat) :
  substring (length a + i) k (a ++ b) = substring i k b.
Proof. induction a as [|c a IH]; cbn [length append Nat.add substring]; auto. Qed.

Lemma substring_take (a b : string) :
  substring 0 (length a) (a ++ b) = a.
Proof.
  induction a as [|c a IH]; cbn [length append substring].
  - now destruct b.
  - now rewrite IH.
Qed.

Lemma substring_whole (s : string) : substring 0 (length s) s = s.
Proof. induction s as [|c s IH]; cbn [length substring]; [reflexivity|]. now rewrite IH. Qed.

(** Whether a name ends with a suffix is read off its end alone. *)
Lemma ends_with_ci_app (name s suffix : string) :
  length suffix <= length s ->
  ends_with_ci (name ++ s) suffix =
  (substring (length s - length suffix) (length suffix) (toLowerCase s) =? suffix).
Proof.
  intros Hle. unfold ends_with_ci. cbn zeta.
  rewrite string_length_app.
  replace (length suffix <=? length name + length s)%nat with true
    by (symmetry; apply Nat.leb_le; lia).
  cbn [andb]. unfold toLowerCase.
  rewrite map_string_substring, map_string_app.
  replace (length name + length s - length suffix)
    with (length (map_string lower_char name) + (length s - length suffix))
    by (rewrite map_string_length; lia).
  now rewrite substring_skip.
Qed.

Lemma removeExtension_app (name e : string) :
  In (toLowerCase e) video_suffixes -> removeExtension (name ++ e) = name.
Proof.
  intros He.
  assert (Hlen : length e = length (toLowerCase e))
    by (unfold toLowerCase; now rewrite map_string_length).
  unfold removeExtension, video_suffixes. cbn [find].
  destruct He as [He | [He | [He | [He | []]]]]; rewrite <- He in Hlen;
    cbn [length] in Hlen;
    repeat (rewrite ends_with_ci_app by (rewrite Hlen; cbn [length]; lia);
            rewrite <- He, Hlen; cbn [length Nat.sub substring String.eqb
                                       Ascii.eqb Bool.eqb]);
    rewrite string_length_app, Hlen; cbn [length];
    match goal with |- substring 0 (?n + ?k - ?k) _ = _ =>
      replace (n + k - k) with n by lia end;
    apply substring_take.
Qed.

(** X7: a name followed by one of the four video extensions, in any mix of
    upper and lower case, loses exactly that extension; so the descriptor of
    a file does not depend on which of the extensions it carries. *)
Theorem extension_is_removed (name s : string) :
  In (toLowerCase s) video_suffixes ->
  removeExtension (name ++ s) = name /\
  forall s', In (toLowerCase s') video_suffixes ->
             parseFilename (name ++ s') = parseFilename (name ++ s).
Proof.
  intros H. split; [now apply removeExtension_app|].
  intros s' H'.
  assert (Hc : cleanName (name ++ s') = cleanName (name ++ s))
    by (unfold cleanName; now rewrite !removeExtension_app).
  unfold parseFilename, rawTitle, words. now rewrite Hc.
Qed.

Lemma extension_is_removed_witness :
  removeExtension ("Sunset_Beach" ++ ".WebM") = "Sunset_Beach" /\
  parseFilename ("Sunset_Beach" ++ ".mp4") = parseFilename ("Sunset_Beach" ++ ".WebM").
Proof.
  assert (H : In (toLowerCase ".WebM") video_suffixes) by (vm_compute; tauto).
  split.
  - exact (proj1 (extension_is_removed "Sunset_Beach" ".WebM" H)).
  - apply (proj2 (extension_is_removed "Sunset_Beach" ".WebM" H)).
    vm_compute. tauto.
Defined.

(** ** The match of a word and a category *)

Lemma prefix_spec (sub s : string) :
  prefix sub s = true <-> exists b, s = sub ++ b.
Proof.
  revert s. induction sub as [|c sub IH]; intros s.
  - split; [intros _; now exists s|intros _; now destruct s].
  - destruct s as [|c' s]; cbn [prefix append].
    + split; [discriminate|intros [b Hb]; discriminate].
    + destruct (ascii_dec c c') as [<- | Hne].
      * rewrite IH. split; intros [b Hb]; exists b; congruence.
      * split; [discriminate|]. intros [b Hb]. congruence.
Qed.

Lemma includes_spec (s sub : string) :
  includes s sub = true <-> exists a b, s = a ++ sub ++ b.
Proof.
  induction s as [|c s IH].
  - cbn [includes]. rewrite orb_false_r, prefix_spec. split.
    + intros [b Hb]. now exists "", b.
    + intros (a & b & H). destruct a; [now exists b|discriminate].
  - cbn [includes]. rewrite orb_true_iff, prefix_spec, IH. split.
    + intros [[b Hb] | (a & b & H)].
      * now exists "", b.
      * exists (String c a), b. cbn. now rewrite H.
    + intros (a & b & H). destruct a as [|c' a].
      * left. now exists b.
      * right. cbn in H. exists a, b. congruence.
Qed.

(** X8: a word brings in a category exactly when the key of the category
    occurs in the word or the word occurs in the key, as a run of
    consecutive characters. *)
Theorem match_is_containment (word category : string) :
  matches word category = true <->
  (exists a b, word = a ++ category ++ b) \/
  (exists a b, category = a ++ word ++ b).
Proof. unfold matches. now rewrite orb_true_iff, !includes_spec. Qed.

(** * Further properties of the normaliser and of the price *)

Lemma getAspectRatio_unknown (width height : option float) :
  getAspectRatio width height = lit "Unknown" <->
  missing_or_zero width = true \/ missing_or_zero height = true.
Proof.
  unfold getAspectRatio, missing_or_zero, present.
  destruct width as [w|], height as [h|]; try (split; [intros _|intros _; reflexivity]; tauto).
  destruct (truthy w), (truthy h); cbn [negb orb];
    try (split; [intros _; tauto|intros _; reflexivity]).
  repeat match goal with
         | |- context [if ?b then _ else _] => destruct b
         end;
    (split; [intros H; discriminate H|intros [H | H]; discriminate H]).
Qed.

(** X9: the aspect-ratio label is "Unknown" only when a dimension is
    missing or zero, the duration label only when the duration is; and the
    resolution of a listing is "Unknown" exactly when its aspect ratio is. *)
Theorem unknown_exactly_when_missing :
  (forall width height,
      getAspectRatio width height = lit "Unknown" <->
      missing_or_zero width = true \/ missing_or_zero height = true) /\
  (forall seconds,
      formatDuration seconds = lit "Unknown" <-> missing_or_zero seconds = true) /\
  (forall fileName metadata,
      vd_resolution (makeVideoData fileName metadata) = lit "Unknown" <->
      vd_aspectRatio (makeVideoData fileName metadata) = lit "Unknown").
Proof.
  split; [exact getAspectRatio_unknown|split].
  - intros [sec|]; unfold formatDuration, missing_or_zero, present;
      [|split; reflexivity].
    destruct (truthy sec); cbn [negb]; [|split; reflexivity].
    destruct (0 <? _)%float; split; intros H; discriminate H.
  - intros fileName metadata.
    unfold makeVideoData. cbn [vd_resolution vd_aspectRatio].
    rewrite getAspectRatio_unknown. unfold missing_or_zero, present.
    destruct (md_width metadata) as [w|], (md_height metadata) as [h|];
      try (split; [intros _|intros _; reflexivity]; tauto).
    destruct (truthy w), (truthy h); cbn [negb andb];
      try (split; [intros _; tauto|intros _; reflexivity]).
    split; [intros H; discriminate H|intros [H | H]; discriminate H].
Qed.

Lemma piece_eqb_eq (a b : piece) : piece_eqb a b = true -> a = b.
Proof.
  destruct a, b; cbn [piece_eqb]; try discriminate.
  - intros H. apply String.eqb_eq in H. now subst.
  - intros H. apply FloatAxioms.Leibniz.eqb_spec in H. now subst.
  - intros H. apply andb_prop in H. destruct H as [H1 H2].
    apply FloatAxioms.Leibniz.eqb_spec in H1. apply Nat.eqb_eq in H2. now subst.
Qed.

Lemma text_eqb_eq (a b : text) : text_eqb a b = true -> a = b.
Proof.
  revert b. induction a as [|p a IH]; intros [|q b]; cbn [text_eqb];
    try discriminate; [reflexivity|].
  intros H. apply andb_prop in H. destruct H as [H1 H2].
  apply piece_eqb_eq in H1. apply IH in H2. now subst.
Qed.

Lemma whole_durations_checked :
  forallb wholeDurationCheck (seq 1 3600) = true.
Proof. vm_compute. reflexivity. Qed.

(** X10: for every whole number of seconds from 1 up to 3600, an hour, the
    duration label is the number followed by "s" below a minute, and
    otherwise the whole minutes, "m ", the remaining seconds and "s". *)
Theorem whole_seconds_are_split (n : nat) :
  1 <= n <= 3600 ->
  formatDuration (Some (Z_to_number (Z.of_nat n))) = wholeDurationLabel n.
Proof.
  intros H. apply text_eqb_eq.
  pose proof whole_durations_checked as Hall.
  rewrite forallb_forall in Hall. apply Hall. apply in_seq. lia.
Qed.

Lemma whole_seconds_are_split_witness :
  formatDuration (Some 125%float) = [Num 2; Lit "m "; Num 5; Lit "s"].
Proof.
  exact (whole_seconds_are_split 125 ltac:(lia)).
Defined.

(** X11: the price is always one of the three tiers 4.99, 7.99 and 9.99,
    whatever the duration and the width, so the default that the writer
    keeps for a missing price is never used: a listing carries the price
    that was computed for it. *)
Theorem price_is_a_tier :
  (forall duration width,
      price duration width = 4.99%float \/
      price duration width = 7.99%float \/
      price duration width = 9.99%float) /\
  (forall id fileName metadata,
      ls_price (makeListing id (makeVideoData fileName metadata)) =
      price (md_duration metadata) (md_width metadata)).
Proof.
  assert (H : forall duration width,
             price duration width = 4.99%float \/
             price duration width = 7.99%float \/
             price duration width = 9.99%float).
  { intros duration width. rewrite price_eq.
    destruct (present width && _); [tauto|].
    destruct (present duration && _); tauto. }
  split; [exact H|].
  intros id fileName metadata.
  unfold makeListing, makeVideoData. cbn [ls_price vd_price].
  destruct (H (md_duration metadata) (md_width metadata)) as [-> | [-> | ->]];
    reflexivity.
Qed.

(** * Further properties of the fetcher, the writer and the run *)

Lemma count_app p (a b : list event) : count p (a ++ b) = count p a + count p b.
Proof. unfold count. now rewrite filter_app, length_app. Qed.

Lemma writes_listings_of_app {World : Type} (env : Collaborators World)
    files (a b : list event) :
  writes_listings_of env files a -> writes_listings_of env files b ->
  writes_listings_of env files (a ++ b).
Proof.
  intros Ha Hb l Hl. apply in_app_or in Hl. destruct Hl; [now apply Ha|now apply Hb].
Qed.

Lemma writes_listings_of_more {World : Type} (env : Collaborators World)
    files files' (d : list event) :
  (forall f, In f files -> In f files') ->
  writes_listings_of env files d -> writes_listings_of env files' d.
Proof.
  intros Hsub Hd l Hl. destruct (Hd l Hl) as (f & id & md & Hf & ->).
  exists f, id, md. split; [now apply Hsub|reflexivity].
Qed.

Section RunFacts.

Context {World : Type} (env : Collaborators World).

Ltac step :=
  unfold iteration, getVideoMetadata, createMarketplaceListing,
    bind, log, emit, await, ret in *;
  cbn [world trace fst snd] in *.

Ltac tidy := rewrite <- ?app_assoc; cbn [app].

Ltac counts :=
  cbn [count filter List.length is_fetch_call is_pause is_skip is_created
       is_listing_error is_write].

Ltac no_write :=
  let l := fresh "l" in let H := fresh "H" in
  intros l H; cbn [In] in H;
  repeat (destruct H as [H | H]; [discriminate H|]); destruct H.

(** What one turn of the loop adds to the trace, by kinds of events. *)
Lemma iteration_profile total k file s e (st : state World) :
  exists d,
    trace (snd (iteration env total k file (s, e) st)) = (trace st ++ d)%list /\
    filter is_fetch_call d = [Call fn_getVideoMetadata file] /\
    count is_pause d + count is_skip d = 1 /\
    fst (fst (iteration env total k file (s, e) st)) = s + count is_created d /\
    snd (fst (iteration env total k file (s, e) st)) =
      e + count is_skip d + count is_listing_error d /\
    count is_write d <= count is_pause d /\
    count is_created d <= count is_write d /\
    writes_listings_of env [file] d.
Proof.
  step.
  destruct (file_getMetadata env file (world st)) as [[md|message] w1];
    cbn [world trace fst snd] in *.
  2:{ tidy. eexists. split; [reflexivity|]. counts.
      repeat split; try lia. no_write. }
  destruct (file_getSignedUrl env file w1) as [[url|message] w2];
    cbn [world trace fst snd] in *.
  2:{ tidy. eexists. split; [reflexivity|]. counts.
      repeat split; try lia. no_write. }
  destruct (collection_doc env w2) as [[id|message] w3];
    cbn [world trace fst snd] in *.
  2:{ tidy. eexists. split; [reflexivity|]. counts.
      repeat split; try lia. no_write. }
  match goal with |- context [listingRef_set env ?l w3] =>
    destruct (listingRef_set env l w3) as [[[]|message] w4] end;
    cbn [world trace fst snd] in *; tidy; eexists; (split; [reflexivity|]);
    counts; repeat split; try lia;
    (intros l H; cbn [In] in H;
     repeat (destruct H as [H | H];
             [first [discriminate H
                    |injection H as <-;
                     exists file, id, (extractMetadata md url);
                     split; [now left|reflexivity]]|]);
     destruct H).
Qed.

(** What the loop adds to the trace, by kinds of events. *)
Lemma loop_profile total k videoFiles s e (st : state World) :
  exists d,
    trace (snd (loop env total k videoFiles (s, e) st)) = (trace st ++ d)%list /\
    filter is_fetch_call d = map (Call fn_getVideoMetadata) videoFiles /\
    count is_pause d + count is_skip d = List.length videoFiles /\
    fst (fst (loop env total k videoFiles (s, e) st)) = s + count is_created d /\
    snd (fst (loop env total k videoFiles (s, e) st)) =
      e + count is_skip d + count is_listing_error d /\
    count is_write d <= count is_pause d /\
    count is_created d <= count is_write d /\
    writes_listings_of env videoFiles d.
Proof.
  revert k s e st.
  induction videoFiles as [|file rest IH]; intros k s e st.
  - exists []. cbn. rewrite app_nil_r.
    repeat split; try lia. intros l [].
  - rewrite loop_cons.
    destruct (iteration_profile total k file s e st)
      as (d1 & Ht1 & Hf1 & Hp1 & Hs1 & He1 & Hw1 & Hc1 & Hl1).
    destruct (iteration env total k file (s, e) st) as [[s1 e1] st1].
    cbn [fst snd] in *.
    destruct (IH (k + 1) s1 e1 st1)
      as (d2 & Ht2 & Hf2 & Hp2 & Hs2 & He2 & Hw2 & Hc2 & Hl2).
    exists (d1 ++ d2)%list.
    rewrite Ht2, Ht1, <- app_assoc, filter_app, Hf1, Hf2, !count_app.
    cbn [map app List.length].
    repeat split; try lia.
    apply writes_listings_of_app.
    + apply (writes_listings_of_more env [file]); [|exact Hl1].
      intros f [<- | []]. now left.
    + apply (writes_listings_of_more env rest); [|exact Hl2].
      intros f Hf. now right.
Qed.

(** What a run that lists the bucket adds to the trace. *)
Lemma populateMarketplace_profile (st : state World) files w :
  bucket_getFiles env (world st) = (Ok files, w) ->
  let videoFiles := filter (isVideoFile env) files in
  exists d,
    trace (snd (populateMarketplace env st)) = (trace st ++ d)%list /\
    filter is_fetch_call d = map (Call fn_getVideoMetadata) videoFiles /\
    count is_pause d + count is_skip d = List.length videoFiles /\
    count is_write d <= count is_pause d /\
    count is_created d <= count is_write d /\
    writes_listings_of env videoFiles d /\
    (videoFiles <> [] ->
     exists pre,
       d = (pre ++ summary (count is_created d)
                     (count is_skip d + count is_listing_error d)
                     (List.length videoFiles))%list).
Proof.
  intros Hfiles videoFiles. subst videoFiles.
  destruct (filter (isVideoFile env) files) as [|file rest] eqn:E.
  - rewrite (populateMarketplace_no_candidates env st files w Hfiles E).
    cbn [snd trace]. eexists. split; [reflexivity|]. counts. cbn [map].
    repeat split; try lia; [no_write|congruence].
  - assert (Hsome : filter (isVideoFile env) files <> []) by congruence.
    rewrite (populateMarketplace_candidates env st files w Hfiles Hsome).
    cbn zeta. rewrite E.
    match goal with |- context [loop env ?n 0 ?l (0, 0) ?st0] =>
      destruct (loop_profile n 0 l 0 0 st0)
        as (d & Ht & Hf & Hp & Hs & He & Hw & Hc & Hl);
      destruct (loop env n 0 l (0, 0) st0) as [[sc ec] st1] end.
    cbn [fst snd world trace] in *.
    exists ([Log LogStart; Storage_getFiles;
             Log (LogFound (List.length (file :: rest)))] ++ d ++
            summary sc ec (List.length (file :: rest)))%list.
    rewrite Ht, <- !app_assoc. split; [reflexivity|].
    assert (Hwl : writes_listings_of env (file :: rest)
                    ([Log LogStart; Storage_getFiles;
                      Log (LogFound (List.length (file :: rest)))] ++ d ++
                     summary sc ec (List.length (file :: rest)))%list).
    { apply writes_listings_of_app; [no_write|].
      apply writes_listings_of_app; [exact Hl|unfold summary; cbn [map]; no_write]. }
    rewrite !filter_app, !count_app, Hf. unfold summary at 1 2 3 4 5 6 7 8 9.
    cbn [map]. counts. cbn [List.length] in Hp. rewrite app_nil_r.
    split; [reflexivity|]. split; [lia|]. split; [lia|]. split; [lia|].
    split; [exact Hwl|].
    intros _.
    exists ([Log LogStart; Storage_getFiles;
             Log (LogFound (S (List.length rest)))] ++ d)%list.
    rewrite <- app_assoc. unfold summary. cbn [map]. counts.
    do 2 f_equal. repeat (f_equal; try lia).
Qed.

End RunFacts.

Section RunProperties.

Context {World : Type} (env : Collaborators World).

(** X12: the fetcher gives metadata exactly when both storage calls
    succeed.  When the metadata call throws, no URL is asked for; when
    either call throws, the error is logged once with the path and the
    message of the error, and the result is the failure signal. *)
Theorem fetch_outcomes (filePath : string) (st : state World) :
  ((exists m, fst (getVideoMetadata env filePath st) = Some m) <->
   (exists metadata w1 url w2,
       file_getMetadata env filePath (world st) = (Ok metadata, w1) /\
       file_getSignedUrl env filePath w1 = (Ok url, w2))) /\
  (forall message w1,
      file_getMetadata env filePath (world st) = (Throws message, w1) ->
      getVideoMetadata env filePath st =
        (None,
         {| world := w1;
            trace := (trace st ++ [Storage_getMetadata filePath;
                                   Log (ErrMetadata filePath message)])%list |})) /\
  (forall metadata w1 message w2,
      file_getMetadata env filePath (world st) = (Ok metadata, w1) ->
      file_getSignedUrl env filePath w1 = (Throws message, w2) ->
      getVideoMetadata env filePath st =
        (None,
         {| world := w2;
            trace := (trace st ++ [Storage_getMetadata filePath;
                                   Storage_getSignedUrl filePath;
                                   Log (ErrMetadata filePath message)])%list |})).
Proof.
  unfold getVideoMetadata, bind, log, emit, await, ret.
  split; [|split].
  - destruct (file_getMetadata env filePath (world st)) as [[md|message] w1];
      cbn [world trace fst snd].
    + destruct (file_getSignedUrl env filePath w1) as [[url|message] w2] eqn:E;
        cbn [world trace fst snd].
      * split; [intros _; now exists md, w1, url, w2|intros _; now eexists].
      * split; [intros [m H]; discriminate H|].
        intros (md' & w1' & url & w2' & H1 & H2).
        injection H1 as <- <-. rewrite E in H2. discriminate H2.
    + split; [intros [m H]; discriminate H|].
      intros (md' & w1' & url & w2' & H1 & _). discriminate H1.
  - intros message w1 ->. cbn [world trace]. now rewrite <- app_assoc.
  - intros metadata w1 message w2 -> . cbn [world trace]. intros ->.
    cbn [world trace]. now rewrite <- !app_assoc.
Qed.

(** X13: the writer gives a listing exactly when the store gives an
    identifier and accepts the document; the listing is then the one it has
    set, under that identifier.  When no identifier is given nothing is
    set; when either call throws, the error is logged once with the file
    name and the result is the failure signal. *)
Theorem writer_outcomes (videoData : VideoData) (st : state World) :
  (forall l,
      fst (createMarketplaceListing env videoData st) = Some l <->
      (exists id w1 w2,
          collection_doc env (world st) = (Ok id, w1) /\
          listingRef_set env (makeListing id videoData) w1 = (Ok tt, w2) /\
          l = makeListing id videoData)) /\
  (forall id w1 w2,
      collection_doc env (world st) = (Ok id, w1) ->
      listingRef_set env (makeListing id videoData) w1 = (Ok tt, w2) ->
      snd (createMarketplaceListing env videoData st) =
        {| world := w2;
           trace := (trace st ++
                     [Firestore_doc; Firestore_set (makeListing id videoData);
                      Log (LogCreated (vd_title videoData)
                             (vd_fileName videoData))])%list |}) /\
  (forall message w1,
      collection_doc env (world st) = (Throws message, w1) ->
      createMarketplaceListing env videoData st =
        (None,
         {| world := w1;
            trace := (trace st ++
                      [Firestore_doc;
                       Log (ErrListing (vd_fileName videoData) message)])%list |})) /\
  (forall id w1 message w2,
      collection_doc env (world st) = (Ok id, w1) ->
      listingRef_set env (makeListing id videoData) w1 = (Throws message, w2) ->
      createMarketplaceListing env videoData st =
        (None,
         {| world := w2;
            trace := (trace st ++
                      [Firestore_doc; Firestore_set (makeListing id videoData);
                       Log (ErrListing (vd_fileName videoData) message)])%list |})).
Proof.
  unfold createMarketplaceListing, bind, log, emit, await, ret.
  split; [|split; [|split]].
  - intros l.
    destruct (collection_doc env (world st)) as [[id|message] w1];
      cbn [world trace fst snd].
    + destruct (listingRef_set env (makeListing id videoData) w1)
        as [[[]|message] w2] eqn:E; cbn [world trace fst snd].
      * split.
        -- intros H. injection H as <-. now exists id, w1, w2.
        -- intros (id' & w1' & w2' & H1 & _ & ->). now injection H1 as <- <-.
      * split; [discriminate|].
        intros (id' & w1' & w2' & H1 & H2 & _).
        injection H1 as <- <-. rewrite E in H2. discriminate H2.
    + split; [discriminate|].
      intros (id' & w1' & w2' & H1 & _). discriminate H1.
  - intros id w1 w2 ->. cbn [world trace]. intros ->.
    cbn [world trace snd]. now rewrite <- !app_assoc.
  - intros message w1 ->. cbn [world trace]. now rewrite <- app_assoc.
  - intros id w1 message w2 ->. cbn [world trace]. intros ->.
    cbn [world trace]. now rewrite <- !app_assoc.
Qed.

(** X14: a run that lists the bucket fetches the metadata of the candidate
    files one after the other in the order of the listing, each of them
    once, and of no other file. *)
Theorem candidates_are_fetched_once_in_order (st : state World) files w :
  bucket_getFiles env (world st) = (Ok files, w) ->
  exists d,
    trace (snd (populateMarketplace env st)) = (trace st ++ d)%list /\
    filter is_fetch_call d =
      map (Call fn_getVideoMetadata) (filter (isVideoFile env) files).
Proof.
  intros H.
  destruct (populateMarketplace_profile env st files w H) as (d & Ht & Hf & _).
  now exists d.
Qed.


(** X16: every listing that a run writes to the store is the listing of a
    candidate file: it is made from the descriptor of the base name of that
    file; its title is not empty, its prompt is the lower-case form of its
    title, its thumbnail is its video URL, it is published, unsold and sold
    by the platform. *)
Theorem listings_written_come_from_candidates (st : state World) files w :
  bucket_getFiles env (world st) = (Ok files, w) ->
  exists d,
    trace (snd (populateMarketplace env st)) = (trace st ++ d)%list /\
    forall l, In (Firestore_set l) d ->
      listing_of env (filter (isVideoFile env) files) l /\
      ls_title l <> "" /\
      ls_prompt l = toLowerCase (ls_title l) /\
      ls_thumbnailUrl l = ls_videoUrl l /\
      ls_status l = "published" /\ ls_sold l = 0 /\ ls_sellerId l = "admin".
Proof.
  intros H.
  destruct (populateMarketplace_profile env st files w H)
    as (d & Ht & _ & _ & _ & _ & Hl & _).
  exists d. split; [exact Ht|].
  intros l Hin. pose proof (Hl l Hin) as Hof.
  split; [exact Hof|].
  destruct Hof as (file & id & md & _ & ->).
  unfold makeListing, makeVideoData.
  cbn [ls_title ls_prompt ls_thumbnailUrl ls_videoUrl ls_status ls_sold
       ls_sellerId vd_title vd_url].
  repeat split. apply parseFilename_title_nonempty.
Qed.

(** X17: the exit code of the script depends on the listing of the bucket
    alone: 0 when the bucket was listed, whatever became of the files, and
    1 when the listing threw, in which case the run logs the fatal error
    and exits at once, with no fetch, write or pause. *)
Theorem exit_code_follows_the_listing (st : state World) :
  fst (script env st) =
    match fst (bucket_getFiles env (world st)) with
    | Ok _ => 0
    | Throws _ => 1
    end /\
  (forall message w,
      bucket_getFiles env (world st) = (Throws message, w) ->
      populateMarketplace env st =
        (Exited 1,
         {| world := w;
            trace := (trace st ++ [Log LogStart; Storage_getFiles;
                                   Log (ErrFatal message); Exit 1])%list |})).
Proof.
  assert (Hfatal : forall message w,
             bucket_getFiles env (world st) = (Throws message, w) ->
             populateMarketplace env st =
               (Exited 1,
                {| world := w;
                   trace := (trace st ++ [Log LogStart; Storage_getFiles;
                                          Log (ErrFatal message); Exit 1])%list |})).
  { intros message w H.
    unfold populateMarketplace, bind, log, emit, await, ret.
    cbn [world trace]. rewrite H. cbn [world trace].
    now rewrite <- !app_assoc. }
  split; [|exact Hfatal].
  unfold script.
  destruct (bucket_getFiles env (world st)) as [[files|message] w] eqn:E;
    cbn [fst].
  - destruct (filter (isVideoFile env) files) as [|file rest] eqn:Ev.
    + now rewrite (populateMarketplace_no_candidates env st files w E Ev).
    + assert (Hsome : filter (isVideoFile env) files <> []) by congruence.
      rewrite (populateMarketplace_candidates env st files w E Hsome).
      cbn zeta.
      now destruct (loop env _ 0 _ (0, 0) _) as [[sc ec] st1].
  - now rewrite (Hfatal message w eq_refl).
Qed.

End RunProperties.

Lemma fetch_outcomes_witness :
  fst (getVideoMetadata (unsigned ["clips/city-night.mp4"])
         "clips/city-night.mp4" initial) = None /\
  fst (getVideoMetadata (example ["clips/city-night.mp4"] ["clips/city-night.mp4"] [])
         "clips/city-night.mp4" initial) = None.
Proof.
  split.
  - exact (f_equal fst
             (proj2 (proj2 (fetch_outcomes (unsigned ["clips/city-night.mp4"])
                              "clips/city-night.mp4" initial))
                _ _ _ _ eq_refl eq_refl)).
  - exact (f_equal fst
             (proj1 (proj2 (fetch_outcomes
                              (example ["clips/city-night.mp4"]
                                 ["clips/city-night.mp4"] [])
                              "clips/city-night.mp4" initial))
                _ _ eq_refl)).
Defined.

Lemma candidates_are_fetched_once_in_order_witness :
  exists d,
    trace (snd (run ["b.mov"; "notes.txt"; "a.mp4"; "c.WEBM"] ["a.mp4"] [])) = d /\
    filter is_fetch_call d =
      [Call fn_getVideoMetadata "b.mov"; Call fn_getVideoMetadata "a.mp4";
       Call fn_getVideoMetadata "c.WEBM"].
Proof.
  destruct (candidates_are_fetched_once_in_order
              (example ["b.mov"; "notes.txt"; "a.mp4"; "c.WEBM"] ["a.mp4"] [])
              initial ["b.mov"; "notes.txt"; "a.mp4"; "c.WEBM"] [] eq_refl)
    as (d & Ht & Hf).
  exists d. split; [exact Ht|exact Hf].
Defined.


Lemma listings_written_come_from_candidates_witness :
  exists d,
    trace (snd (run ["clips/city-night.mp4"] [] [])) = d /\
    forall l, In (Firestore_set l) d -> ls_title l <> "".
Proof.
  destruct (listings_written_come_from_candidates
              (example ["clips/city-night.mp4"] [] []) initial
              ["clips/city-night.mp4"] [] eq_refl) as (d & Ht & Hl).
  exists d. split; [exact Ht|].
  intros l Hin. exact (proj1 (proj2 (Hl l Hin))).
Defined.

Lemma exit_code_follows_the_listing_witness :
  fst (script unlistable initial) = 1 /\
  fst (populateMarketplace unlistable initial) = Exited 1.
Proof.
  split.
  - exact (proj1 (exit_code_follows_the_listing unlistable initial)).
  - exact (f_equal fst
             (proj2 (exit_code_follows_the_listing unlistable initial)
                "Forbidden" [] eq_refl)).
Defined.

(** X18: a file is a candidate by the extension of its path, and the
    classifier takes the extension off the base name of the path.  Wherever
    the base name ends with the extension, as it does with the path
    functions of the platform, the two agree: the classifier removes from
    the name of a candidate exactly the extension that made it one. *)
Theorem candidate_loses_its_extension {World : Type}
    (env : Collaborators World) (file stem : string) :
  isVideoFile env file = true ->
  path_basename env file = stem ++ path_extname env file ->
  removeExtension (path_basename env file) = stem.
Proof.
  intros Hvideo ->. apply removeExtension_app.
  unfold isVideoFile in Hvideo. apply existsb_exists in Hvideo.
  destruct Hvideo as (ext & Hin & Heq). apply String.eqb_eq in Heq.
  rewrite Heq. exact Hin.
Qed.

Lemma candidate_loses_its_extension_witness :
  removeExtension (posix_basename "clips/Sunset_Beach.MOV") = "Sunset_Beach".
Proof.
  exact (candidate_loses_its_extension (example [] [] [])
           "clips/Sunset_Beach.MOV" "Sunset_Beach" eq_refl eq_refl).
Defined.

Lemma writer_outcomes_witness :
  let v := makeVideoData "city-night.mp4"
             (extractMetadata (metadataWith None) "https://storage.example/a") in
  fst (createMarketplaceListing (readonly ["city-night.mp4"]) v initial) = None /\
  fst (createMarketplaceListing (example ["city-night.mp4"] [] []) v initial) =
    Some (makeListing "x" v).
Proof.
  intros v. split.
  - exact (f_equal fst
             (proj2 (proj2 (proj2 (writer_outcomes (readonly ["city-night.mp4"])
                                     v initial)))
                "x" [] "PERMISSION_DENIED" [] eq_refl eq_refl)).
  - apply (proj1 (writer_outcomes (example ["city-night.mp4"] [] []) v initial)).
    exists "x", [], [makeListing "x" v]. repeat split.
Defined.

(** * Further properties of the parsed attributes *)

Lemma digit_char_facts (d : nat) :
  d < 10 ->
  digit_in 10 (digit_char d) = Some (Z.of_nat d) /\
  is_space (digit_char d) = false /\
  (digit_char d =? "-")%char = false /\
  (digit_char d =? "+")%char = false /\
  ((digit_char d =? "x")%char || (digit_char d =? "X")%char) = false.
Proof.
  intros H.
  do 10 (destruct d as [|d]; [repeat split|]). lia.
Qed.

Lemma read_digits_numeral (ds : list nat) (rest : string) (acc : Z) (count : nat) :
  Forall (fun d => d < 10) ds -> ends_numeral rest = true ->
  read_digits 10 (numeral ds ++ rest) acc count =
  (fold_left (fun a d => (a * 10 + Z.of_nat d)%Z) ds acc,
   count + List.length ds, rest).
Proof.
  intros Hds Hrest. revert acc count.
  induction Hds as [|d ds Hd Hds IH]; intros acc count.
  - cbn [numeral fold_right append fold_left List.length].
    rewrite Nat.add_0_r. destruct rest as [|c r]; [reflexivity|].
    cbn [ends_numeral] in Hrest. cbn [read_digits].
    now destruct (digit_in 10 c).
  - cbn [numeral fold_right append fold_left List.length read_digits].
    destruct (digit_char_facts d Hd) as (-> & _).
    fold (numeral ds). rewrite IH. f_equal. f_equal. lia.
Qed.

(** The character after the first digit is no [x]. *)
Lemma numeral_tail_no_x (ds : list nat) (rest : string) c t :
  Forall (fun d => d < 10) ds -> ends_numeral rest = true ->
  numeral ds ++ rest = String c t ->
  ((c =? "x")%char || (c =? "X")%char) = false.
Proof.
  intros Hds Hrest. destruct Hds as [|d ds Hd Hds].
  - cbn [numeral fold_right append]. intros ->.
    cbn [ends_numeral] in Hrest.
    destruct (digit_in 10 c); [discriminate|].
    now apply negb_true_iff in Hrest.
  - cbn [numeral fold_right append]. intros H. injection H as <- _.
    now destruct (digit_char_facts d Hd) as (_ & _ & _ & _ & ->).
Qed.

Lemma parseInt_digits (neg : bool) (ds : list nat) (rest : string) :
  ds <> [] -> Forall (fun d => d < 10) ds -> ends_numeral rest = true ->
  parseInt ((if neg then "-" else "") ++ numeral ds ++ rest) =
  if (numeral_value ds =? 0)%Z then (if neg then neg_zero else zero)
  else Z_to_number (if neg then (- numeral_value ds)%Z else numeral_value ds).
Proof.
  intros Hne Hds Hrest.
  destruct ds as [|d ds]; [congruence|].
  inversion Hds as [|d' ds' Hd Hds']; subst.
  assert (Hsign : read_sign (trimStart ((if neg then "-" else "") ++
                                        numeral (d :: ds) ++ rest)) =
                  (neg, numeral (d :: ds) ++ rest)).
  { destruct (digit_char_facts d Hd) as (_ & Hsp & Hminus & Hplus & _).
    destruct neg; cbn [append numeral fold_right trimStart read_sign];
      [reflexivity|].
    cbn [is_space] in Hsp. rewrite Hsp. cbn [read_sign].
    now rewrite Hminus, Hplus. }
  unfold parseInt. rewrite Hsign.
  assert (Hradix :
            match numeral (d :: ds) ++ rest with
            | String c0 (String c1 s') =>
                if (c0 =? "0")%char && ((c1 =? "x")%char || (c1 =? "X")%char)
                then (16%Z, s') else (10%Z, numeral (d :: ds) ++ rest)
            | _ => (10%Z, numeral (d :: ds) ++ rest)
            end = (10%Z, numeral (d :: ds) ++ rest)).
  { cbn [numeral fold_right append]. fold (numeral ds).
    destruct (numeral ds ++ rest) as [|c1 s'] eqn:E; [reflexivity|].
    rewrite (numeral_tail_no_x ds rest c1 s' Hds' Hrest E).
    now rewrite andb_false_r. }
  rewrite Hradix, (read_digits_numeral (d :: ds) rest 0 0 Hds Hrest).
  cbn [List.length Nat.add Nat.eqb]. reflexivity.
Qed.

(** X19: a width or height attribute that is a decimal numeral, possibly
    with a minus sign in front and a unit behind it, is read as the integer
    the numeral denotes, rounded to the nearest number; what follows the
    digits is ignored. *)
Theorem numeral_attribute_is_read (neg : bool) (ds : list nat) (rest : string) :
  ds <> [] -> Forall (fun d => d < 10) ds -> ends_numeral rest = true ->
  parsedInt (Some (AStr ((if neg then "-" else "") ++ numeral ds ++ rest))) =
  Some (if (numeral_value ds =? 0)%Z then (if neg then neg_zero else zero)
        else Z_to_number (if neg then (- numeral_value ds)%Z
                          else numeral_value ds)).
Proof.
  intros Hne Hds Hrest.
  unfold parsedInt, attr_truthy, attr_to_string.
  rewrite (parseInt_digits neg ds rest Hne Hds Hrest).
  destruct ds as [|d ds]; [congruence|].
  now destruct neg.
Qed.

Lemma numeral_attribute_is_read_witness :
  parsedInt (Some (AStr "1920px")) = Some 1920%float.
Proof.
  exact (numeral_attribute_is_read false [1; 9; 2; 0] "px"
           ltac:(discriminate) ltac:(repeat constructor) eq_refl).
Defined.
